(** * gitfs: a file system facade over a git repository

    Shallow embedding of the Go package [gitfs] (files [fs.go] and the git
    client that defines [Git], [NewGit], [buildDotStore], [traverseDir] and
    [GetStatus]), followed by theorems about bootstrap, status
    reconciliation, pull, sync and the facade.

    Conventions.
    - A Go [error] value is an [option error]: [None] is [nil].
    - A Go pointer that may be [nil] is an [option]; dereferencing [None]
      is the run-time fault [Panic].
    - A library call returning [(T, error)] is a [result T]; the library
      returns a usable [T] exactly when the error is [nil].
    - Everything outside the handle (store contents, repository objects,
      remote, clock) is a world [W] threaded through the monad [M].
    - [fmt.Printf] output is not modelled. *)

From Stdlib Require Import Ascii String.
From stdpp Require Import base option list strings gmap.

Local Open Scope string_scope.

Set Warnings "-register-all".

(** ** Errors *)

Inductive error : Type :=
| ErrNotExist                              (* an error for which os.IsNotExist holds *)
| NoErrAlreadyUpToDate                     (* git.NoErrAlreadyUpToDate *)
| ErrNew (msg : string)                    (* errors.New(msg) *)
| ErrWrap (cause : error) (msg : string)   (* errors.Wrapf(cause, msg) *)
| ErrLib (code : nat).                     (* any other error of a library *)

#[global] Instance error_eq_dec : EqDecision error.
Proof. solve_decision. Defined.

Inductive result (A : Type) : Type :=
| Ok (a : A)
| Err (e : error).
Arguments Ok {A} a.
Arguments Err {A} e.

(** [os.IsNotExist(err)]; it is false on [nil] and does not look through
    [errors.Wrapf]. *)
Definition os_IsNotExist (err : option error) : bool :=
  match err with
  | Some ErrNotExist => true
  | _ => false
  end.

(** ** Status codes *)

(** The status codes of the git library ([git.StatusCode]), one per declared
    constant. *)
Inductive git_StatusCode : Type :=
| git_Unmodified
| git_Untracked
| git_Modified
| git_Added
| git_Deleted
| git_Renamed
| git_Copied
| git_UpdatedButUnmerged.

#[global] Instance git_StatusCode_eq_dec : EqDecision git_StatusCode.
Proof. solve_decision. Defined.

(** [byte(c)] for a library status code. *)
Definition git_byte (c : git_StatusCode) : ascii :=
  match c with
  | git_Unmodified => " "
  | git_Untracked => "?"
  | git_Modified => "M"
  | git_Added => "A"
  | git_Deleted => "D"
  | git_Renamed => "R"
  | git_Copied => "C"
  | git_UpdatedButUnmerged => "U"
  end%char.

(** [type StatusCode byte] and its constants. *)
Definition StatusCode : Type := ascii.

Definition Unmodified : StatusCode := " "%char.
Definition Inconsistent : StatusCode := "!"%char.
Definition Untracked : StatusCode := "?"%char.
Definition Modified : StatusCode := "M"%char.
Definition Added : StatusCode := "A"%char.
Definition Deleted : StatusCode := "D"%char.
Definition Renamed : StatusCode := "R"%char.
Definition Copied : StatusCode := "C"%char.
Definition UpdatedButUnmerged : StatusCode := "U"%char.

(** [git.FileStatus] and [git.Status] (a Go map from path to a pointer). *)
Record FileStatus : Type := mkFileStatus {
  Staging : git_StatusCode;
  Worktree : git_StatusCode;
  Extra : string
}.

(** ** The directory tree seen by the walk *)

(** [os.FileInfo], as far as the code looks at it. *)
Record FileInfo : Type := mkFileInfo {
  Name : string;
  IsDir : bool
}.

(** What [fs.ReadDir] answers at a directory and, below each entry, what it
    answers at that entry's path. *)
Inductive DirTree : Type :=
| ReadDirOk (files : list (FileInfo * DirTree))
| ReadDirErr (e : error).

(** [git.GitDirName] *)
Definition GitDirName : string := ".git".

(** [filepath.Join(dir, name)] for a clean absolute [dir] and an entry name:
    empty elements are ignored, and no separator is doubled after the
    root. *)
Definition filepath_Join (dir name : string) : string :=
  if decide (name = "") then dir
  else if decide (dir = "/") then "/" +:+ name
  else dir +:+ "/" +:+ name.

(** [path[1:]]; every path the walk builds starts with the separator. *)
Definition slice_from_1 (path : string) : string :=
  match path with
  | EmptyString => EmptyString
  | String _ rest => rest
  end.

(** [traverseDir(fs, dir, cb)]. The callback closes over mutable state,
    which is threaded as [S]. *)
Fixpoint traverseDir {S : Type} (fs : DirTree) (dir : string)
    (cb : string -> S -> S * option error) (s : S) : S * option error :=
  match fs with
  | ReadDirErr err => (s, Some err)
  | ReadDirOk files =>
    (fix loop (files : list (FileInfo * DirTree)) (s : S) : S * option error :=
       match files with
       | [] => (s, None)
       | (fi, sub) :: rest =>
         if decide (Name fi = GitDirName) then loop rest s
         else
           let path := filepath_Join dir (Name fi) in
           if IsDir fi then
             match traverseDir sub path cb s with
             | (s', Some err) => (s', Some err)
             | (s', None) => loop rest s'
             end
           else
             match cb (slice_from_1 path) s with
             | (s', Some err) => (s', Some err)
             | (s', None) => loop rest s'
             end
       end) files s
  end.

(** The body of the [for] loop of [traverseDir], named for the proofs. *)
Definition traverseFiles {S : Type} (dir : string)
    (cb : string -> S -> S * option error) :
    list (FileInfo * DirTree) -> S -> S * option error :=
  fix loop (files : list (FileInfo * DirTree)) (s : S) : S * option error :=
    match files with
    | [] => (s, None)
    | (fi, sub) :: rest =>
      if decide (Name fi = GitDirName) then loop rest s
      else
        let path := filepath_Join dir (Name fi) in
        if IsDir fi then
          match traverseDir sub path cb s with
          | (s', Some err) => (s', Some err)
          | (s', None) => loop rest s'
          end
        else
          match cb (slice_from_1 path) s with
          | (s', Some err) => (s', Some err)
          | (s', None) => loop rest s'
          end
    end.

(** The closure passed by [GetStatus]: the decision on one visited path,
    written into the map [files] it closes over; it always returns nil. *)
Definition statusStep (s : gmap string FileStatus) (path : string)
    (files : gmap string StatusCode) : gmap string StatusCode :=
  match s !! path with
  | None => files
  | Some fstatus =>
    if decide (Staging fstatus = git_Unmodified ∧ Worktree fstatus = git_Unmodified)
    then files
    else if decide (Staging fstatus = git_Unmodified)
    then <[path := git_byte (Worktree fstatus)]> files
    else if decide (Worktree fstatus = git_Unmodified)
    then <[path := git_byte (Staging fstatus)]> files
    else if decide (Staging fstatus ≠ Worktree fstatus)
    then <[path := Inconsistent]> files
    else <[path := git_byte (Worktree fstatus)]> files
  end.

Definition statusCallback (s : gmap string FileStatus) (path : string)
    (files : gmap string StatusCode) : gmap string StatusCode * option error :=
  (statusStep s path files, None).

(** The paths handed to the callback, in order: the walk run with a
    callback that only records its argument. *)
Definition recordPath (path : string) (seen : list string) : list string * option error :=
  ((seen ++ [path])%list, None).

Definition callbackPaths (fs : DirTree) (dir : string) : list string :=
  (traverseDir fs dir recordPath []).1.

(** The read error that ends the walk, if any. *)
Definition walkError (fs : DirTree) (dir : string) : option error :=
  (traverseDir fs dir recordPath []).2.

(** ** [strings.TrimSpace] on byte strings *)

(** The one-byte white space of [unicode.IsSpace]. *)
Definition asciiSpace (b : nat) : bool :=
  (((9 <=? b) && (b <=? 13)) || (b =? 32))%nat.

(** U+0085 and U+00A0 in UTF-8. *)
Definition space2 (b0 b1 : nat) : bool :=
  ((b0 =? 194) && ((b1 =? 133) || (b1 =? 160)))%nat.

(** U+1680, U+2000..U+200A, U+2028, U+2029, U+202F, U+205F and U+3000 in
    UTF-8. *)
Definition space3 (b0 b1 b2 : nat) : bool :=
  (((b0 =? 225) && (b1 =? 154) && (b2 =? 128))
   || ((b0 =? 226) && (b1 =? 128)
       && (((128 <=? b2) && (b2 <=? 138)) || (b2 =? 168) || (b2 =? 169) || (b2 =? 175)))
   || ((b0 =? 226) && (b1 =? 129) && (b2 =? 159))
   || ((b0 =? 227) && (b1 =? 128) && (b2 =? 128)))%nat.

(** The bytes that follow one leading white-space character, if there is
    one. *)
Definition dropLeadingSpace (s : list nat) : option (list nat) :=
  match s with
  | b0 :: r0 =>
    if asciiSpace b0 then Some r0
    else match r0 with
         | b1 :: r1 =>
           if space2 b0 b1 then Some r1
           else match r1 with
                | b2 :: r2 => if space3 b0 b1 b2 then Some r2 else None
                | [] => None
                end
         | [] => None
         end
  | [] => None
  end.

(** The same from the end, on the reversed bytes. *)
Definition dropTrailingSpace (rs : list nat) : option (list nat) :=
  match rs with
  | b0 :: r0 =>
    if asciiSpace b0 then Some r0
    else match r0 with
         | b1 :: r1 =>
           if space2 b1 b0 then Some r1
           else match r1 with
                | b2 :: r2 => if space3 b2 b1 b0 then Some r2 else None
                | [] => None
                end
         | [] => None
         end
  | [] => None
  end.

Fixpoint trimWhile (drop : list nat -> option (list nat)) (fuel : nat)
    (s : list nat) : list nat :=
  match fuel with
  | 0 => s
  | Datatypes.S fuel' =>
    match drop s with
    | Some rest => trimWhile drop fuel' rest
    | None => s
    end
  end.

Definition bytes_of (s : string) : list nat :=
  nat_of_ascii <$> list_ascii_of_string s.

Definition string_of (bs : list nat) : string :=
  string_of_list_ascii (ascii_of_nat <$> bs).

Definition strings_TrimSpace (s : string) : string :=
  let bs := bytes_of s in
  let left := trimWhile dropLeadingSpace (length bs) bs in
  let right := trimWhile dropTrailingSpace (length left) (reverse left) in
  string_of (reverse right).

(** ** Configuration *)

Record Config : Type := mkConfig {
  cfg_repoUrl : string;
  cfg_useMemFs : bool;
  cfg_osFsBaseDir : string;
  cfg_openExisting : bool
}.

Definition NewConfig : Config :=
  {| cfg_repoUrl := ""; cfg_useMemFs := false; cfg_osFsBaseDir := "";
     cfg_openExisting := false |}.

Definition SetUrl (c : Config) (url : string) : Config :=
  {| cfg_repoUrl := url; cfg_useMemFs := cfg_useMemFs c;
     cfg_osFsBaseDir := cfg_osFsBaseDir c; cfg_openExisting := cfg_openExisting c |}.

Definition UseMemFs (c : Config) : Config :=
  {| cfg_repoUrl := cfg_repoUrl c; cfg_useMemFs := true;
     cfg_osFsBaseDir := ""; cfg_openExisting := false |}.

Definition UseOsFs (c : Config) (baseDir : string) (openExisting : bool) : Config :=
  {| cfg_repoUrl := cfg_repoUrl c; cfg_useMemFs := false;
     cfg_osFsBaseDir := baseDir; cfg_openExisting := openExisting |}.

(** [Config.Valid]: it stores the trimmed fields in the receiver, so the
    configuration after the call is returned with the error. *)
Definition Valid (c : Config) : Config * option error :=
  let c1 := SetUrl c (strings_TrimSpace (cfg_repoUrl c)) in
  if decide (cfg_repoUrl c1 = "") then (c1, Some (ErrNew "empty repo url"))
  else
    let c2 := {| cfg_repoUrl := cfg_repoUrl c1; cfg_useMemFs := cfg_useMemFs c1;
                 cfg_osFsBaseDir := strings_TrimSpace (cfg_osFsBaseDir c1);
                 cfg_openExisting := cfg_openExisting c1 |} in
    if cfg_useMemFs c2 && bool_decide (cfg_osFsBaseDir c2 ≠ "")
    then (c2, Some (ErrNew "memFs and osFs base dir are mutually exclusive"))
    else if negb (cfg_useMemFs c2) && bool_decide (cfg_osFsBaseDir c2 = "")
    then (c2, Some (ErrNew "osFs base dir is not provided"))
    else (c2, None).

(** ** The libraries and the host *)

(** Option structs of the git library, with the fields the code sets
    ([Progress] is output only). *)
Record PublicKeys (A : Type) : Type := mkPublicKeys {
  User : string;
  Signer : A
}.
Arguments mkPublicKeys {A} User Signer.
Arguments User {A} _.
Arguments Signer {A} _.

Record CloneOptions (A : Type) : Type := mkCloneOptions {
  clone_URL : string;
  clone_Auth : PublicKeys A
}.
Arguments mkCloneOptions {A} clone_URL clone_Auth.

Record PullOptions (A : Type) : Type := mkPullOptions {
  pull_RemoteName : string;
  pull_Auth : PublicKeys A
}.
Arguments mkPullOptions {A} pull_RemoteName pull_Auth.

Record PushOptions (A : Type) : Type := mkPushOptions {
  push_RemoteName : string;
  push_RefSpecs : list string;
  push_Auth : PublicKeys A
}.
Arguments mkPushOptions {A} push_RemoteName push_RefSpecs push_Auth.
Arguments push_RemoteName {A} _.
Arguments push_RefSpecs {A} _.
Arguments push_Auth {A} _.

Record Signature (A : Type) : Type := mkSignature {
  sig_Name : string;
  sig_Email : string;
  sig_When : A
}.
Arguments mkSignature {A} sig_Name sig_Email sig_When.

Record CommitOptions (A : Type) : Type := mkCommitOptions {
  commit_All : bool;
  commit_Author : Signature A
}.
Arguments mkCommitOptions {A} commit_All commit_Author.

Record RemoteConfig : Type := mkRemoteConfig {
  remote_Name : string;
  remote_URLs : list string
}.

(** What the package calls but does not define: the host ([os], [ioutil],
    [ssh], [time]), the byte store ([billy], [memfs], [osfs], [util]) and
    the git engine. A call that can change the world returns the new world;
    [wt_Status] and [fs_tree] only read it. *)
Class Extern : Type := {
  W : Type;
  context_Context : Type;
  ssh_Signer : Type;
  time_Time : Type;
  billy_Filesystem : Type;
  billy_File : Type;
  filesystem_Storage : Type;
  git_Repository : Type;
  git_Worktree : Type;
  (* host *)
  os_Getenv : string -> W -> string;
  ioutil_ReadFile : string -> W -> result string * W;
  ssh_ParsePrivateKey : string -> result ssh_Signer;
  time_Now : W -> time_Time * W;
  time_Format : time_Time -> string -> string;
  (* byte store *)
  memfs_New : W -> billy_Filesystem * W;
  osfs_New : string -> billy_Filesystem;
  fs_Create : billy_Filesystem -> string -> W -> result billy_File * W;
  fs_Open : billy_Filesystem -> string -> W -> result billy_File * W;
  fs_OpenFile : billy_Filesystem -> string -> Z -> N -> W -> result billy_File * W;
  fs_Stat : billy_Filesystem -> string -> W -> result FileInfo * W;
  fs_Rename : billy_Filesystem -> string -> string -> W -> option error * W;
  fs_Remove : billy_Filesystem -> string -> W -> option error * W;
  util_RemoveAll : billy_Filesystem -> string -> W -> option error * W;
  fs_Join : billy_Filesystem -> list string -> string;
  fs_TempFile : billy_Filesystem -> string -> string -> W -> result billy_File * W;
  fs_ReadDir : billy_Filesystem -> string -> W -> result (list FileInfo) * W;
  fs_MkdirAll : billy_Filesystem -> string -> N -> W -> option error * W;
  fs_Lstat : billy_Filesystem -> string -> W -> result FileInfo * W;
  fs_Symlink : billy_Filesystem -> string -> string -> W -> option error * W;
  fs_Readlink : billy_Filesystem -> string -> W -> result string * W;
  fs_Chroot : billy_Filesystem -> string -> W -> result billy_Filesystem * W;
  fs_Root : billy_Filesystem -> string;
  (* the answers of [fs.ReadDir] along a walk from the root of the store *)
  fs_tree : billy_Filesystem -> W -> DirTree;
  (* git engine *)
  filesystem_NewStorage : billy_Filesystem -> W -> filesystem_Storage * W;
  git_Open : filesystem_Storage -> billy_Filesystem -> W -> result git_Repository * W;
  git_CloneContext :
    context_Context -> filesystem_Storage -> billy_Filesystem -> CloneOptions ssh_Signer ->
    W -> result git_Repository * W;
  git_Init : filesystem_Storage -> billy_Filesystem -> W -> result git_Repository * W;
  repo_CreateRemote : git_Repository -> RemoteConfig -> W -> option error * W;
  repo_Worktree : git_Repository -> W -> result git_Worktree * W;
  repo_Push : git_Repository -> PushOptions ssh_Signer -> W -> option error * W;
  wt_Pull : git_Worktree -> PullOptions ssh_Signer -> W -> option error * W;
  wt_Add : git_Worktree -> string -> W -> option error * W;
  wt_Commit : git_Worktree -> string -> CommitOptions time_Time -> W -> option error * W;
  wt_Status : git_Worktree -> W -> result (gmap string FileStatus)
}.

(** ** The monad of the package's functions *)

Inductive outcome (A : Type) : Type :=
| Ret (a : A)
| Panic.
Arguments Ret {A} a.
Arguments Panic {A}.

Section Program.
Context {E : Extern}.

Definition M (A : Type) : Type := W -> outcome A * W.

Definition ret {A : Type} (a : A) : M A := fun w => (Ret a, w).

Definition bind {A B : Type} (m : M A) (k : A -> M B) : M B :=
  fun w =>
    match m w with
    | (Ret a, w') => k a w'
    | (Panic, w') => (Panic, w')
    end.

(** A library call. *)
Definition call {A : Type} (f : W -> A * W) : M A :=
  fun w => let '(a, w') := f w in (Ret a, w').

(** A library call that only reads. *)
Definition look {A : Type} (f : W -> A) : M A :=
  fun w => (Ret (f w), w).

Definition panic {A : Type} : M A := fun w => (Panic, w).

(** Field access through a pointer. *)
Definition deref {A : Type} (p : option A) : M A :=
  match p with
  | Some a => ret a
  | None => panic
  end.

Notation "'let*' x ':=' m 'in' k" := (bind m (fun x => k))
  (at level 10, x pattern, m at level 100, k at level 200).

(** ** The git client *)

Record Git : Type := mkGit {
  ctx : option context_Context;
  repoUrl : string;
  auth : PublicKeys ssh_Signer;
  fs : billy_Filesystem;
  repo : git_Repository;
  wt : git_Worktree;
  pulled : bool
}.

(** The tail of [buildDotStore]: chroot into the metadata directory and
    wrap it as the repository's storage. *)
Definition chrootDot (store : billy_Filesystem) (exists_ : bool)
    : M (bool * result filesystem_Storage) :=
  let* d := call (fs_Chroot store GitDirName) in
  match d with
  | Err e => ret (exists_, Err (ErrWrap e ("error chrooting " +:+ GitDirName)))
  | Ok dot => let* st := call (filesystem_NewStorage dot) in ret (exists_, Ok st)
  end.

(** [buildDotStore]. The triple [(storage, exists, err)] has a storage
    exactly when [err] is nil, so it is returned as [exists] and a
    [result]. When [Stat] succeeds [err] is nil and [exists] is true; when
    it fails with a not-exist error [exists] is false and the guards are
    skipped. *)
Definition buildDotStore (store : billy_Filesystem) (errorIfExists : bool)
    : M (bool * result filesystem_Storage) :=
  let* r := call (fs_Stat store GitDirName) in
  let err := match r with Ok _ => None | Err e => Some e end in
  let exists_ := negb (os_IsNotExist err) in
  match r with
  | Err e =>
    if negb (os_IsNotExist err) then ret (exists_, Err e)
    else chrootDot store exists_
  | Ok fi =>
    if exists_ && errorIfExists then ret (true, Err (ErrNew "repo already exists"))
    else if exists_ && negb (IsDir fi) then ret (true, Err (ErrNew ".git is not a directory"))
    else chrootDot store exists_
  end.

(** [NewGit] *)
Definition NewGit (c : context_Context) (url : string) (useMemfs : bool) (baseDir : string)
    (errorIfExists : bool) : M (result Git) :=
  let* home := look (os_Getenv "HOME") in
  let* k := call (ioutil_ReadFile (home +:+ "/.ssh/id_rsa")) in
  match k with
  | Err e => ret (Err (ErrWrap e "error reading private key"))
  | Ok sshKey =>
    match ssh_ParsePrivateKey sshKey with
    | Err e => ret (Err (ErrWrap e "error parsing private key"))
    | Ok signer =>
      let a := mkPublicKeys "git" signer in
      let* store := (if useMemfs then call memfs_New else ret (osfs_New baseDir)) in
      let* ds := buildDotStore store errorIfExists in
      match ds with
      | (_, Err e) => ret (Err (ErrWrap e "error chrooting .git"))
      | (exists_, Ok dotStore) =>
        let* r := (if exists_ then call (git_Open dotStore store)
                   else call (git_CloneContext c dotStore store (mkCloneOptions url a))) in
        match r with
        | Err e => ret (Err (ErrWrap e ("error cloning repo " +:+ url)))
        | Ok rp =>
          let* t := call (repo_Worktree rp) in
          match t with
          | Err e => ret (Err (ErrWrap e "error reading worktree"))
          | Ok wtree =>
            ret (Ok {| ctx := None; repoUrl := url; auth := a; repo := rp;
                       wt := wtree; fs := store; pulled := false |})
          end
        end
      end
    end
  end.

(** [Git.Reset]. It assigns [g.repo] and [g.wt], so the client after the
    call is returned with the error. *)
Definition Git_Reset (g : Git) : M (Git * option error) :=
  let* e := call (util_RemoveAll (fs g) GitDirName) in
  match e with
  | Some err => ret (g, Some (ErrWrap err "error removing .git"))
  | None =>
    let* ds := buildDotStore (fs g) true in
    match ds with
    | (_, Err err) => ret (g, Some err)
    | (_, Ok dotStore) =>
      let* r := call (git_Init dotStore (fs g)) in
      match r with
      | Err err => ret (g, Some (ErrWrap err "error initing repo"))
      | Ok rp =>
        let* e' := call (repo_CreateRemote rp
                           {| remote_Name := "origin"; remote_URLs := [repoUrl g] |}) in
        match e' with
        | Some err => ret (g, Some (ErrWrap err "error pushing change"))
        | None =>
          let* t := call (repo_Worktree rp) in
          match t with
          | Err err => ret (g, Some (ErrWrap err "error reading worktree"))
          | Ok wtree =>
            ret ({| ctx := ctx g; repoUrl := repoUrl g; auth := auth g; fs := fs g;
                    repo := rp; wt := wtree; pulled := pulled g |}, None)
          end
        end
      end
    end
  end.

Definition Git_FileSystem (g : Git) : billy_Filesystem := fs g.

(** [Git.Pull] *)
Definition Git_Pull (g : Git) : M (option error) :=
  let* e := call (wt_Pull (wt g) (mkPullOptions "origin" (auth g))) in
  match e with
  | Some err =>
    if decide (err ≠ NoErrAlreadyUpToDate)
    then ret (Some (ErrWrap err "error pulling changes from origin"))
    else ret None
  | None => ret None
  end.

(** [Git.AddAll] *)
Definition Git_AddAll (g : Git) : M (option error) :=
  call (wt_Add (wt g) "").

(** [Git.Commit] *)
Definition Git_Commit (g : Git) (msg : string) : M (option error) :=
  let* now := call time_Now in
  call (wt_Commit (wt g) msg
          (mkCommitOptions true (mkSignature "gitfs" "gitfs@github.com" now))).

(** [Git.Push] *)
Definition Git_Push (g : Git) : M (option error) :=
  call (repo_Push (repo g)
          (mkPushOptions "origin" ["+refs/heads/master:refs/heads/master"] (auth g))).

(** [Git.GetStatus] *)
Definition Git_GetStatus (g : Git) : M (result (gmap string StatusCode)) :=
  let* r := look (wt_Status (wt g)) in
  match r with
  | Err err => ret (Err (ErrWrap err "error getting status"))
  | Ok s =>
    let* tree := look (fs_tree (fs g)) in
    match traverseDir tree "/" (statusCallback s) ∅ with
    | (_, Some err) => ret (Err err)
    | (files, None) => ret (Ok files)
    end
  end.

(** ** The facade *)

Record GitFs : Type := mkGitFs {
  gf_git : option Git;
  gf_fs : billy_Filesystem
}.

(** [Git.Reset] through the pointer held by the facade: the client is
    updated in place. *)
Definition withGit (g : GitFs) (git' : Git) : GitFs :=
  {| gf_git := Some git'; gf_fs := gf_fs g |}.

(** [New] *)
Definition New (c : context_Context) (config : Config) : M (Config * result GitFs) :=
  match Valid config with
  | (config', Some err) => ret (config', Err err)
  | (config', None) =>
    let* r := NewGit c (cfg_repoUrl config') (cfg_useMemFs config')
                (cfg_osFsBaseDir config') (negb (cfg_openExisting config')) in
    match r with
    | Err err => ret (config', Err (ErrWrap err "error creating git client"))
    | Ok git => ret (config', Ok {| gf_git := Some git; gf_fs := Git_FileSystem git |})
    end
  end.

(** [GitFs.Pull]. A method of [*Git] reads a field of its receiver before
    anything else, so a nil receiver faults before any library call. *)
Definition GitFs_Pull (g : GitFs) : M (option error) :=
  let* git := deref (gf_git g) in
  Git_Pull git.

(** [GitFs.Sync] *)
Definition GitFs_Sync (g : GitFs) (purge : bool) : M (GitFs * option error) :=
  let* r := (if purge then
               let* git := deref (gf_git g) in
               let* (git', e) := Git_Reset git in
               ret (withGit g git', e)
             else ret (g, None)) in
  match r with
  | (g1, Some err) => ret (g1, Some (ErrWrap err "error resetting git"))
  | (g1, None) =>
    let* git := deref (gf_git g1) in
    let* e := Git_AddAll git in
    match e with
    | Some err => ret (g1, Some (ErrWrap err "error adding files to git"))
    | None =>
      let* now := call time_Now in
      let* e := Git_Commit git
                  ("gitfs sync - " +:+ time_Format now "2006-01-02T15:04:05Z07:00") in
      match e with
      | Some err => ret (g1, Some (ErrWrap err "error committing sync changes"))
      | None =>
        let* e := Git_Push git in
        match e with
        | Some err => ret (g1, Some (ErrWrap err "error pushing change to remote repo"))
        | None => ret (g1, None)
        end
      end
    end
  end.

(** The status of the handle's client (the facade has no method for it). *)
Definition GitFs_Status (g : GitFs) : M (result (gmap string StatusCode)) :=
  let* git := deref (gf_git g) in
  Git_GetStatus git.

Definition GitFs_Create (g : GitFs) (filename : string) : M (result billy_File) :=
  call (fs_Create (gf_fs g) filename).

Definition GitFs_Open (g : GitFs) (filename : string) : M (result billy_File) :=
  call (fs_Open (gf_fs g) filename).

Definition GitFs_OpenFile (g : GitFs) (filename : string) (flag : Z) (perm : N)
    : M (result billy_File) :=
  call (fs_OpenFile (gf_fs g) filename flag perm).

Definition GitFs_Stat (g : GitFs) (filename : string) : M (result FileInfo) :=
  call (fs_Stat (gf_fs g) filename).

Definition GitFs_Rename (g : GitFs) (oldpath newpath : string) : M (option error) :=
  call (fs_Rename (gf_fs g) oldpath newpath).

Definition GitFs_Remove (g : GitFs) (filename : string) : M (option error) :=
  call (fs_Remove (gf_fs g) filename).

Definition GitFs_RemoveAll (g : GitFs) (path : string) : M (option error) :=
  call (util_RemoveAll (gf_fs g) path).

Definition GitFs_Join (g : GitFs) (elem : list string) : string :=
  fs_Join (gf_fs g) elem.

Definition GitFs_TempFile (g : GitFs) (dir prefix : string) : M (result billy_File) :=
  call (fs_TempFile (gf_fs g) dir prefix).

Definition GitFs_ReadDir (g : GitFs) (path : string) : M (result (list FileInfo)) :=
  call (fs_ReadDir (gf_fs g) path).

Definition GitFs_MkdirAll (g : GitFs) (filename : string) (perm : N) : M (option error) :=
  call (fs_MkdirAll (gf_fs g) filename perm).

Definition GitFs_Lstat (g : GitFs) (filename : string) : M (result FileInfo) :=
  call (fs_Lstat (gf_fs g) filename).

Definition GitFs_Symlink (g : GitFs) (target link : string) : M (option error) :=
  call (fs_Symlink (gf_fs g) target link).

Definition GitFs_Readlink (g : GitFs) (link : string) : M (result string) :=
  call (fs_Readlink (gf_fs g) link).

(** [GitFs.Chroot]: the new handle has no [git] field set. *)
Definition GitFs_Chroot (g : GitFs) (path : string) : M (result GitFs) :=
  let* r := call (fs_Chroot (gf_fs g) path) in
  match r with
  | Err err => ret (Err err)
  | Ok sub => ret (Ok {| gf_git := None; gf_fs := sub |})
  end.

Definition GitFs_Root (g : GitFs) : string := fs_Root (gf_fs g).

(** [GitFs.Exist] *)
Definition GitFs_Exist (g : GitFs) (path : string) : M (bool * option error) :=
  let* r := call (fs_Stat (gf_fs g) path) in
  match r with
  | Err err =>
    if os_IsNotExist (Some err) then ret (false, None)
    else ret (false, Some (ErrWrap err "error stating path"))
  | Ok _ => ret (true, None)
  end.

End Program.

Notation "'let*' x ':=' m 'in' k" := (bind m (fun x => k))
  (at level 10, x pattern, m at level 100, k at level 200).

(** ** The operations of a handle, as one family *)

Section Operations.
Context {E : Extern}.

Inductive Op : Type :=
| OpPull
| OpSync (purge : bool)
| OpReset
| OpStatus
| OpCreate (filename : string)
| OpOpen (filename : string)
| OpOpenFile (filename : string) (flag : Z) (perm : N)
| OpStat (filename : string)
| OpRename (oldpath newpath : string)
| OpRemove (filename : string)
| OpRemoveAll (path : string)
| OpJoin (elem : list string)
| OpTempFile (dir prefix : string)
| OpReadDir (path : string)
| OpMkdirAll (filename : string) (perm : N)
| OpLstat (filename : string)
| OpSymlink (target link : string)
| OpReadlink (link : string)
| OpChroot (path : string)
| OpRoot
| OpExist (path : string).

(** What an operation hands back to the caller. *)
Inductive Value : Type :=
| VError (e : option error)
| VStatus (r : result (gmap string StatusCode))
| VFile (r : result billy_File)
| VInfo (r : result FileInfo)
| VInfos (r : result (list FileInfo))
| VString (s : string)
| VRead (r : result string)
| VHandle (r : result GitFs)
| VExist (r : bool * option error).

(** One operation on a handle: the value for the caller and the handle
    afterwards. *)
Definition runOp (o : Op) (g : GitFs) : M (Value * GitFs) :=
  match o with
  | OpPull => let* e := GitFs_Pull g in ret (VError e, g)
  | OpSync purge => let* (g', e) := GitFs_Sync g purge in ret (VError e, g')
  | OpReset =>
    let* git := deref (gf_git g) in
    let* (git', e) := Git_Reset git in
    ret (VError e, withGit g git')
  | OpStatus => let* r := GitFs_Status g in ret (VStatus r, g)
  | OpCreate filename => let* r := GitFs_Create g filename in ret (VFile r, g)
  | OpOpen filename => let* r := GitFs_Open g filename in ret (VFile r, g)
  | OpOpenFile filename flag perm =>
    let* r := GitFs_OpenFile g filename flag perm in ret (VFile r, g)
  | OpStat filename => let* r := GitFs_Stat g filename in ret (VInfo r, g)
  | OpRename oldpath newpath => let* e := GitFs_Rename g oldpath newpath in ret (VError e, g)
  | OpRemove filename => let* e := GitFs_Remove g filename in ret (VError e, g)
  | OpRemoveAll path => let* e := GitFs_RemoveAll g path in ret (VError e, g)
  | OpJoin elem => ret (VString (GitFs_Join g elem), g)
  | OpTempFile dir prefix => let* r := GitFs_TempFile g dir prefix in ret (VFile r, g)
  | OpReadDir path => let* r := GitFs_ReadDir g path in ret (VInfos r, g)
  | OpMkdirAll filename perm => let* e := GitFs_MkdirAll g filename perm in ret (VError e, g)
  | OpLstat filename => let* r := GitFs_Lstat g filename in ret (VInfo r, g)
  | OpSymlink target link => let* e := GitFs_Symlink g target link in ret (VError e, g)
  | OpReadlink link => let* r := GitFs_Readlink g link in ret (VRead r, g)
  | OpChroot path => let* r := GitFs_Chroot g path in ret (VHandle r, g)
  | OpRoot => ret (VString (GitFs_Root g), g)
  | OpExist path => let* r := GitFs_Exist g path in ret (VExist r, g)
  end.

(** The handle with the [pulled] flag of its client set to [b]. *)
Definition setPulledGit (b : bool) (g : Git) : Git :=
  {| ctx := ctx g; repoUrl := repoUrl g; auth := auth g; fs := fs g;
     repo := repo g; wt := wt g; pulled := b |}.

Definition setPulled (b : bool) (g : GitFs) : GitFs :=
  {| gf_git := setPulledGit b <$> gf_git g; gf_fs := gf_fs g |}.

(** The result of an operation, with the flag of the handle it leaves set
    to [b]. *)
Definition reflag (b : bool) (r : outcome (Value * GitFs) * W)
    : outcome (Value * GitFs) * W :=
  match r with
  | (Ret (v, g'), w') => (Ret (v, setPulled b g'), w')
  | (Panic, w') => (Panic, w')
  end.

(** ** The steps of a sync *)

Inductive Step : Type :=
| StepReset
| StepAddAll
| StepCommit
| StepPush.

#[global] Instance Step_eq_dec : EqDecision Step.
Proof. solve_decision. Defined.

(** The message under which [Sync] reports a failure of the step. *)
Definition stepMessage (s : Step) : string :=
  match s with
  | StepReset => "error resetting git"
  | StepAddAll => "error adding files to git"
  | StepCommit => "error committing sync changes"
  | StepPush => "error pushing change to remote repo"
  end.

(** One step, as [Sync] calls it. *)
Definition runStep (s : Step) (git : Git) : M (Git * option error) :=
  match s with
  | StepReset => Git_Reset git
  | StepAddAll => let* e := Git_AddAll git in ret (git, e)
  | StepCommit =>
    let* now := call time_Now in
    let* e := Git_Commit git
                ("gitfs sync - " +:+ time_Format now "2006-01-02T15:04:05Z07:00") in
    ret (git, e)
  | StepPush => let* e := Git_Push git in ret (git, e)
  end.

(** The sequence the contract of sync names. *)
Definition syncPlan (purge : bool) : list Step :=
  (if purge then [StepReset] else []) ++ [StepAddAll; StepCommit; StepPush].

(** The contract of sync in its own words: the steps in order, each only
    after the earlier ones succeeded, stopping at the first failure with
    that step's error wrapped. [ran] lists the steps performed. *)
Inductive Runs : list Step -> Git -> W -> list Step -> Git -> option error -> W -> Prop :=
| Runs_done git w :
    Runs [] git w [] git None w
| Runs_fail s rest git w git' err w' :
    runStep s git w = (Ret (git', Some err), w') ->
    Runs (s :: rest) git w [s] git' (Some (ErrWrap err (stepMessage s))) w'
| Runs_next s rest git w git' w' ran git'' r w'' :
    runStep s git w = (Ret (git', None), w') ->
    Runs rest git' w' ran git'' r w'' ->
    Runs (s :: rest) git w (s :: ran) git'' r w''.

End Operations.

(** ** Paths and their components *)

(** The components of a slash-separated path. *)
Fixpoint splitPath (s : string) : list string :=
  match s with
  | EmptyString => [EmptyString]
  | String c rest =>
    if decide (c = "/"%char) then EmptyString :: splitPath rest
    else match splitPath rest with
         | h :: t => String c h :: t
         | [] => [String c EmptyString]
         end
  end.

(** An entry name as a directory listing gives it: no separator inside. *)
Fixpoint noSlash (s : string) : bool :=
  match s with
  | EmptyString => true
  | String c rest => if decide (c = "/"%char) then false else noSlash rest
  end.

(** The directory the walk is in, as the callback would see it: [d] is the
    separator followed by a relative path with [P]. *)
Definition underRoot (P : string -> Prop) (d : string) : Prop :=
  ∃ q, d = String "/" q ∧ P q.

(** Every entry name of the tree passes [ok]. *)
Fixpoint allNames (ok : string -> bool) (t : DirTree) : bool :=
  match t with
  | ReadDirErr _ => true
  | ReadDirOk files =>
    forallb (fun p : FileInfo * DirTree => ok (Name p.1) && allNames ok p.2) files
  end.

Definition plainNames (t : DirTree) : bool := allNames noSlash t.

(** ** The decision table of status reconciliation

    The table as the specification prints it, row by row: no entry and
    (Unmodified, Unmodified) are left out; a lone modified side is
    reported; two modified sides are reported when equal and give
    [Inconsistent] when not. *)
Definition decisionTable (entry : option FileStatus) : option StatusCode :=
  match entry with
  | None => None
  | Some st =>
    match Staging st, Worktree st with
    | git_Unmodified, git_Unmodified => None
    | git_Unmodified, y => Some (git_byte y)
    | x, git_Unmodified => Some (git_byte x)
    | x, y => if decide (x = y) then Some (git_byte x) else Some Inconsistent
    end
  end.

(** ** The push rule of the git engine *)

(** [config.RefSpec.IsForceUpdate]: a refspec that starts with [+]. *)
Definition RefSpec_IsForceUpdate (rs : string) : bool :=
  match rs with
  | String c _ => bool_decide (c = "+"%char)
  | EmptyString => false
  end.

(** A branch is the list of its commits, oldest first; [old] is an ancestor
    of [new] when it is a prefix of it. *)
Fixpoint isAncestor (old new : list nat) : bool :=
  match old, new with
  | [], _ => true
  | a :: old', b :: new' => bool_decide (a = b) && isAncestor old' new'
  | _ :: _, [] => false
  end.

(** The rule of the git library's [Remote.Push] for one refspec (library
    behaviour, not code of this package): nothing to do when the two
    branches agree; the fast-forward check is made only for a refspec that
    is not forced, and refuses an update the remote is not an ancestor of;
    otherwise the remote branch becomes the local one. *)
Definition pushUpdate (rs : string) (local remote : list nat) : option error * list nat :=
  if decide (local = remote) then (Some NoErrAlreadyUpToDate, remote)
  else if negb (RefSpec_IsForceUpdate rs) && negb (isAncestor remote local)
  then (Some (ErrLib 1), remote)
  else (None, local).

(** The remote has commits the local branch lacks and the local branch has
    commits the remote lacks. *)
Definition diverged (local remote : list nat) : bool :=
  negb (isAncestor remote local) && negb (isAncestor local remote).

(** ** A small engine, for running the package on concrete worlds

    A store is named by the path of its root; the repository is the pair of
    the local and the remote branch; the engine follows [pushUpdate]. *)
Module Sim.

Record World : Type := mkWorld {
  dotgit : option FileInfo;            (* what Stat answers for the metadata path *)
  tree : DirTree;                      (* what ReadDir answers along a walk *)
  raw : gmap string FileStatus;        (* the raw status of the worktree *)
  local_ : list nat;                   (* local master *)
  remote_ : list nat;                  (* master on origin *)
  clock : nat
}.

Definition setDotgit (d : option FileInfo) (w : World) : World :=
  mkWorld d (tree w) (raw w) (local_ w) (remote_ w) (clock w).

Definition setLocal (l : list nat) (w : World) : World :=
  mkWorld (dotgit w) (tree w) (raw w) l (remote_ w) (clock w).

Definition setRemote (r : list nat) (w : World) : World :=
  mkWorld (dotgit w) (tree w) (raw w) (local_ w) r (clock w).

Definition tick (w : World) : World :=
  mkWorld (dotgit w) (tree w) (raw w) (local_ w) (remote_ w) (Datatypes.S (clock w)).

Definition dotDir : FileInfo := {| Name := GitDirName; IsDir := true |}.

Definition stat (name : string) (w : World) : result FileInfo * World :=
  if decide (name = GitDirName) then
    match dotgit w with
    | Some fi => (Ok fi, w)
    | None => (Err ErrNotExist, w)
    end
  else (Err ErrNotExist, w).

Definition readDir (w : World) : result (list FileInfo) * World :=
  match tree w with
  | ReadDirOk files => (Ok (files.*1), w)
  | ReadDirErr e => (Err e, w)
  end.

Definition removeAll (path : string) (w : World) : option error * World :=
  if decide (path = GitDirName) then (None, setDotgit None w) else (None, w).

Definition push (rs : list string) (w : World) : option error * World :=
  match rs with
  | [] => (None, w)
  | r :: _ =>
    let '(e, remote') := pushUpdate r (local_ w) (remote_ w) in (e, setRemote remote' w)
  end.

Definition pull (w : World) : option error * World :=
  if decide (local_ w = remote_ w) then (Some NoErrAlreadyUpToDate, w)
  else if isAncestor (local_ w) (remote_ w) then (None, setLocal (remote_ w) w)
  else (Some (ErrLib 2), w).

Definition commit (w : World) : option error * World :=
  (None, setLocal (local_ w ++ [clock w]) w).

#[global] Instance engine : Extern := {|
  W := World;
  context_Context := unit;
  ssh_Signer := unit;
  time_Time := nat;
  billy_Filesystem := string;
  billy_File := string;
  filesystem_Storage := string;
  git_Repository := unit;
  git_Worktree := unit;
  os_Getenv := fun _ _ => "/home/gitfs";
  ioutil_ReadFile := fun _ w => (Ok "key", w);
  ssh_ParsePrivateKey := fun _ => Ok tt;
  time_Now := fun w => (clock w, tick w);
  time_Format := fun _ _ => "now";
  memfs_New := fun w => ("", w);
  osfs_New := fun baseDir => baseDir;
  fs_Create := fun store name w => (Ok (store +:+ "/" +:+ name), w);
  fs_Open := fun _ _ w => (Err ErrNotExist, w);
  fs_OpenFile := fun _ _ _ _ w => (Err ErrNotExist, w);
  fs_Stat := fun _ name w => stat name w;
  fs_Rename := fun _ _ _ w => (Some ErrNotExist, w);
  fs_Remove := fun _ _ w => (Some ErrNotExist, w);
  util_RemoveAll := fun _ path w => removeAll path w;
  fs_Join := fun _ elem => String.concat "/" elem;
  fs_TempFile := fun store dir prefix w => (Ok (store +:+ "/" +:+ dir +:+ "/" +:+ prefix), w);
  fs_ReadDir := fun _ _ w => readDir w;
  fs_MkdirAll := fun _ _ _ w => (None, w);
  fs_Lstat := fun _ name w => stat name w;
  fs_Symlink := fun _ _ _ w => (None, w);
  fs_Readlink := fun _ _ w => (Err ErrNotExist, w);
  fs_Chroot := fun store path w => (Ok (store +:+ "/" +:+ path), w);
  fs_Root := fun store => store;
  fs_tree := fun _ w => tree w;
  filesystem_NewStorage := fun dot w => (dot, w);
  git_Open := fun _ _ w => (Ok tt, w);
  git_CloneContext := fun _ _ _ _ w => (Ok tt, setDotgit (Some dotDir) (setLocal (remote_ w) w));
  git_Init := fun _ _ w => (Ok tt, setDotgit (Some dotDir) (setLocal [] w));
  repo_CreateRemote := fun _ _ w => (None, w);
  repo_Worktree := fun _ w => (Ok tt, w);
  repo_Push := fun _ o w => push (push_RefSpecs o) w;
  wt_Pull := fun _ _ w => pull w;
  wt_Add := fun _ _ w => (None, w);
  wt_Commit := fun _ _ _ w => commit w;
  wt_Status := fun _ w => Ok (raw w)
|}.

(** A client and a handle on the store rooted at [/data]. *)
Definition client : Git :=
  {| ctx := None; repoUrl := "git@example.org:r.git"; auth := mkPublicKeys "git" tt;
     fs := "/data"; repo := tt; wt := tt; pulled := false |}.

Definition handle : GitFs := {| gf_git := Some client; gf_fs := "/data" |}.

(** What [Chroot] of the handle into [docs] returns. *)
Definition docsHandle : GitFs := {| gf_git := None; gf_fs := "/data/docs" |}.

(** A store with a metadata directory, two files and a subdirectory. *)
Definition files0 : DirTree :=
  ReadDirOk
    [ ({| Name := ".git"; IsDir := true |},
       ReadDirOk [ ({| Name := "HEAD"; IsDir := false |}, ReadDirErr ErrNotExist) ]);
      ({| Name := "a.txt"; IsDir := false |}, ReadDirErr ErrNotExist);
      ({| Name := "docs"; IsDir := true |},
       ReadDirOk
         [ ({| Name := ".git"; IsDir := false |}, ReadDirErr ErrNotExist);
           ({| Name := "b.txt"; IsDir := false |}, ReadDirErr ErrNotExist);
           ({| Name := "c.txt"; IsDir := false |}, ReadDirErr ErrNotExist) ]);
      ({| Name := "d.txt"; IsDir := false |}, ReadDirErr ErrNotExist) ].

Definition raw0 : gmap string FileStatus :=
  <["a.txt" := mkFileStatus git_Unmodified git_Modified ""]>
  (<["docs/b.txt" := mkFileStatus git_Added git_Deleted ""]>
  (<["docs/c.txt" := mkFileStatus git_Unmodified git_Unmodified ""]>
  (<["HEAD" := mkFileStatus git_Untracked git_Untracked ""]> ∅))).

Definition world0 : World :=
  {| dotgit := Some dotDir; tree := files0; raw := raw0;
     local_ := [1; 2]; remote_ := [1; 3]; clock := 7 |}.

End Sim.

(** ** More of the walk *)

(** The callback called on each path in turn, up to its first error. *)
Fixpoint runCallbacks {S : Type} (cb : string -> S -> S * option error)
    (paths : list string) (s : S) : S * option error :=
  match paths with
  | [] => (s, None)
  | p :: rest =>
    match cb p s with
    | (s', Some err) => (s', Some err)
    | (s', None) => runCallbacks cb rest s'
    end
  end.

(** The tree with every entry named like the metadata directory erased, at
    every level, and nothing kept below an entry that is not a directory. *)
Fixpoint pruneMetadata (t : DirTree) : DirTree :=
  match t with
  | ReadDirErr e => ReadDirErr e
  | ReadDirOk files =>
    ReadDirOk
      ((fix prune (files : list (FileInfo * DirTree)) : list (FileInfo * DirTree) :=
          match files with
          | [] => []
          | (fi, sub) :: rest =>
            if decide (Name fi = GitDirName) then prune rest
            else (fi, if IsDir fi then pruneMetadata sub else ReadDirErr ErrNotExist)
                 :: prune rest
          end) files)
  end.

(** The list part of [pruneMetadata], named for the proofs. *)
Definition pruneFiles : list (FileInfo * DirTree) -> list (FileInfo * DirTree) :=
  fix prune (files : list (FileInfo * DirTree)) : list (FileInfo * DirTree) :=
    match files with
    | [] => []
    | (fi, sub) :: rest =>
      if decide (Name fi = GitDirName) then prune rest
      else (fi, if IsDir fi then pruneMetadata sub else ReadDirErr ErrNotExist)
           :: prune rest
    end.

(** An entry name as a directory listing gives it: not empty and no
    separator inside. *)
Definition entryName (name : string) : bool :=
  noSlash name && negb (bool_decide (name = "")).

(** A name other than the reserved one. *)
Definition notMetadata (name : string) : bool :=
  negb (bool_decide (name = GitDirName)).

(** ** More of status reconciliation *)

(** The raw pair with its two sides exchanged. *)
Definition swapSides (st : FileStatus) : FileStatus :=
  {| Staging := Worktree st; Worktree := Staging st; Extra := Extra st |}.

(** The codes a status map can hold for a changed path: the declared
    constants other than [Unmodified]. *)
Definition changeCodes : list StatusCode :=
  [Inconsistent; Untracked; Modified; Added; Deleted; Renamed; Copied; UpdatedButUnmerged].

(** ** More of the configuration *)

(** A string of spaces, tabs and line breaks only. *)
Definition blank (s : string) : bool := forallb asciiSpace (bytes_of s).

(** ** More of the client *)

Section Frames.
Context {E : Extern}.

(** Two clients that differ at most in the repository and its worktree. *)
Definition sameButRepo (g g' : Git) : Prop :=
  fs g' = fs g ∧ repoUrl g' = repoUrl g ∧ auth g' = auth g
  ∧ pulled g' = pulled g ∧ ctx g' = ctx g.

(** The operations that go through the client. *)
Definition usesClient (o : Op) : bool :=
  match o with
  | OpPull | OpSync _ | OpReset | OpStatus => true
  | _ => false
  end.

End Frames.

(** The store of [Sim.files0] after the repository wrote into its metadata
    directory, and the world with it. *)
Definition filesAfterCommit : DirTree :=
  ReadDirOk
    [ ({| Name := ".git"; IsDir := true |},
       ReadDirOk [ ({| Name := "HEAD"; IsDir := false |}, ReadDirErr ErrNotExist);
                   ({| Name := "index"; IsDir := false |}, ReadDirErr ErrNotExist);
                   ({| Name := "objects"; IsDir := true |}, ReadDirErr (ErrLib 5)) ]);
      ({| Name := "a.txt"; IsDir := false |}, ReadDirErr ErrNotExist);
      ({| Name := "docs"; IsDir := true |},
       ReadDirOk
         [ ({| Name := "b.txt"; IsDir := false |}, ReadDirErr ErrNotExist);
           ({| Name := "c.txt"; IsDir := false |}, ReadDirErr ErrNotExist) ]);
      ({| Name := "d.txt"; IsDir := false |}, ReadDirErr ErrNotExist) ].

Definition worldAfterCommit : Sim.World :=
  {| Sim.dotgit := Some Sim.dotDir; Sim.tree := filesAfterCommit; Sim.raw := Sim.raw0;
     Sim.local_ := [1; 2]; Sim.remote_ := [1; 3]; Sim.clock := 8 |}.

(** * Theorems *)

(** ** The package run on a small world *)

Example trim_spaces : strings_TrimSpace "  a b  " = "a b".
Proof. reflexivity. Qed.

Example trim_no_break_space :
  strings_TrimSpace (String (ascii_of_nat 194) (String (ascii_of_nat 160) " x ")) = "x".
Proof. reflexivity. Qed.

Example valid_memfs :
  (Valid (UseMemFs (SetUrl NewConfig " git@example.org:r.git "))).2 = None.
Proof. reflexivity. Qed.

Example valid_osfs_without_base :
  (Valid (UseOsFs (SetUrl NewConfig "git@example.org:r.git") "  " true)).2 =
  Some (ErrNew "osFs base dir is not provided").
Proof. reflexivity. Qed.

Example walk_paths :
  callbackPaths Sim.files0 "/" = ["a.txt"; "docs/b.txt"; "docs/c.txt"; "d.txt"].
Proof. vm_compute. reflexivity. Qed.

Example status_of_world0 :
  (Git_GetStatus Sim.client Sim.world0).1 =
  Ret (Ok (<["a.txt" := Modified]> (<["docs/b.txt" := Inconsistent]> ∅))).
Proof. vm_compute. reflexivity. Qed.

Example pull_diverged :
  (Git_Pull Sim.client Sim.world0).1 =
  Ret (Some (ErrWrap (ErrLib 2) "error pulling changes from origin")).
Proof. reflexivity. Qed.

Example pull_up_to_date :
  (Git_Pull Sim.client (Sim.setRemote [1; 2] Sim.world0)).1 = Ret None.
Proof. reflexivity. Qed.

Example open_existing :
  (NewGit (E := Sim.engine) tt "git@example.org:r.git" false "/data" false Sim.world0).1 =
  Ret (Ok Sim.client).
Proof. reflexivity. Qed.

Example clone_over_existing :
  (NewGit (E := Sim.engine) tt "git@example.org:r.git" false "/data" true Sim.world0).1 =
  Ret (Err (ErrWrap (ErrNew "repo already exists") "error chrooting .git")).
Proof. reflexivity. Qed.

Example push_not_forced :
  pushUpdate "refs/heads/master:refs/heads/master" [1; 2] [1; 3] = (Some (ErrLib 1), [1; 3]).
Proof. reflexivity. Qed.

Example push_forced :
  pushUpdate "+refs/heads/master:refs/heads/master" [1; 2] [1; 3] = (None, [1; 2]).
Proof. reflexivity. Qed.

Example purge_sync :
  (GitFs_Sync Sim.handle true Sim.world0).1 = Ret (Sim.handle, None)
  ∧ Sim.remote_ (GitFs_Sync Sim.handle true Sim.world0).2 = [9].
Proof. split; vm_compute; reflexivity. Qed.

(** ** Configuration *)

(** C5. [Valid] fails exactly when the trimmed URL is empty, or the store is
    the memory one with a non-empty trimmed base directory, or the store is
    path-rooted with an empty trimmed base directory; otherwise it
    succeeds. *)
Theorem Valid_fails_iff (c : Config) :
  let url := strings_TrimSpace (cfg_repoUrl c) in
  let base := strings_TrimSpace (cfg_osFsBaseDir c) in
  (Valid c).2 ≠ None ↔
    url = ""
    ∨ (cfg_useMemFs c = true ∧ base ≠ "")
    ∨ (cfg_useMemFs c = false ∧ base = "").
Proof.
  intros url base. unfold Valid. simpl.
  fold url. fold base.
  destruct (decide (url = "")) as [Hu | Hu]; simpl.
  { split; [intros _; by left | done]. }
  destruct (cfg_useMemFs c) eqn:Hm; simpl.
  - destruct (decide (base = "")) as [Hb | Hb].
    + rewrite bool_decide_eq_false_2 by (intros H; by apply H).
      simpl. split; [done |]. intros [? | [[_ ?] | [? _]]]; done.
    + rewrite bool_decide_eq_true_2 by done.
      simpl. split; [intros _; right; by left | done].
  - destruct (decide (base = "")) as [Hb | Hb].
    + rewrite bool_decide_eq_true_2 by done.
      simpl. split; [intros _; right; by right | done].
    + rewrite bool_decide_eq_false_2 by done.
      simpl. split; [done |]. intros [? | [[? _] | [_ ?]]]; done.
Qed.

(** ** Bootstrap *)

Section BootstrapFacts.
Context {E : Extern}.

Lemma buildDotStore_present (store : billy_Filesystem) (flag : bool) (w w' : W) (fi : FileInfo) :
  fs_Stat store GitDirName w = (Ok fi, w') ->
  IsDir fi = false ->
  buildDotStore store flag w =
    (Ret (true, Err (ErrNew (if flag then "repo already exists"
                             else ".git is not a directory"))), w').
Proof.
  intros Hstat Hdir. unfold buildDotStore, bind, call. rewrite Hstat. simpl.
  rewrite Hdir. by destruct flag.
Qed.

End BootstrapFacts.

(** C4, as the claim states it, fails: with the guard flag set, a metadata
    path that is a plain file is reported as an existing repository, not as
    a corrupt one. *)
Lemma buildDotStore_guard_first :
  let notDir := {| Name := ".git"; IsDir := false |} in
  let w := Sim.setDotgit (Some notDir) Sim.world0 in
  fs_Stat "/data" GitDirName w = (Ok notDir, w)
  ∧ IsDir notDir = false
  ∧ buildDotStore "/data" true w = (Ret (true, Err (ErrNew "repo already exists")), w)
  ∧ ErrNew "repo already exists" ≠ ErrNew ".git is not a directory".
Proof. repeat split; done. Qed.

(** C4, amended. When the metadata path exists and is not a directory,
    [buildDotStore] fails for either value of the flag, reporting that the
    metadata exists: with the corrupt-repository error when the flag is
    false, and with the already-exists error, whose guard comes first, when
    it is true. [NewGit], once it has its key and its store, fails with that
    error wrapped. *)
Theorem buildDotStore_not_a_directory `{E : Extern}
    (store : billy_Filesystem) (errorIfExists : bool) (w w' : W) (fi : FileInfo) :
  fs_Stat store GitDirName w = (Ok fi, w') ->
  IsDir fi = false ->
  let failure := ErrNew (if errorIfExists then "repo already exists"
                         else ".git is not a directory") in
  buildDotStore store errorIfExists w = (Ret (true, Err failure), w')
  ∧ ∀ (c : context_Context) (url baseDir key : string) (useMemfs : bool)
      (signer : ssh_Signer) (w0 w1 : W),
      ioutil_ReadFile (os_Getenv "HOME" w0 +:+ "/.ssh/id_rsa") w0 = (Ok key, w1) ->
      ssh_ParsePrivateKey key = Ok signer ->
      (if useMemfs then memfs_New w1 else (osfs_New baseDir, w1)) = (store, w) ->
      NewGit c url useMemfs baseDir errorIfExists w0 =
        (Ret (Err (ErrWrap failure "error chrooting .git")), w').
Proof.
  intros Hstat Hdir failure.
  pose proof (buildDotStore_present store errorIfExists w w' fi Hstat Hdir) as Hb.
  split; [exact Hb |].
  intros c url baseDir key useMemfs signer w0 w1 Hread Hparse Hstore.
  unfold NewGit. unfold bind at 1. unfold look. unfold bind at 1. unfold call at 1.
  rewrite Hread, Hparse. unfold bind at 1.
  replace ((if useMemfs then call memfs_New else ret (osfs_New baseDir)) w1)
    with (Ret store, w).
  2: { destruct useMemfs; unfold call, ret.
       - by destruct (memfs_New w1); injection Hstore as -> ->.
       - by injection Hstore as -> ->. }
  unfold bind at 1. rewrite Hb. reflexivity.
Qed.

Lemma buildDotStore_not_a_directory_witness :
  let w := Sim.setDotgit (Some {| Name := ".git"; IsDir := false |}) Sim.world0 in
  buildDotStore (E := Sim.engine) "/data" false w =
    (Ret (true, Err (ErrNew ".git is not a directory")), w)
  ∧ NewGit (E := Sim.engine) tt "git@example.org:r.git" false "/data" false w =
    (Ret (Err (ErrWrap (ErrNew ".git is not a directory") "error chrooting .git")), w).
Proof.
  intros w.
  destruct (buildDotStore_not_a_directory (E := Sim.engine) "/data" false w w
              {| Name := ".git"; IsDir := false |} eq_refl eq_refl) as [Hb Hnew].
  split; [exact Hb |].
  exact (Hnew tt "git@example.org:r.git" "/data" "key" false tt w w eq_refl eq_refl eq_refl).
Defined.

(** ** Pull *)

(** C7. [Pull] returns nil when the engine's pull returns nil or reports
    that the branch is already up to date, and it returns an error, the
    engine's one wrapped, exactly when the engine's pull fails with any
    other error. *)
Theorem Pull_error_iff `{E : Extern} (git : Git) (store : billy_Filesystem) (w : W) :
  let r := wt_Pull (wt git) (mkPullOptions "origin" (auth git)) w in
  ∃ res : option error,
    Git_Pull git w = (Ret res, r.2)
    ∧ GitFs_Pull {| gf_git := Some git; gf_fs := store |} w = (Ret res, r.2)
    ∧ (res = None ↔ r.1 = None ∨ r.1 = Some NoErrAlreadyUpToDate)
    ∧ (∀ err, r.1 = Some err -> err ≠ NoErrAlreadyUpToDate ->
         res = Some (ErrWrap err "error pulling changes from origin")).
Proof.
  intros r. subst r. unfold GitFs_Pull, Git_Pull, bind, call, deref, ret. simpl.
  destruct (wt_Pull _ _ w) as [[err |] w'] eqn:Hp; simpl.
  - destruct (decide (err ≠ NoErrAlreadyUpToDate)) as [Hne | Heq].
    + eexists. repeat split; try done.
      * intros [? | [= ?]]; done.
      * intros ? [= <-] _. done.
    + apply dec_stable in Heq. subst err.
      eexists. repeat split; try done.
      * intros _. by right.
      * intros ? [= <-] ?. done.
  - eexists. repeat split; try done.
    intros _. by left.
Qed.

(** ** The walk *)

Lemma DirTree_nested_ind (P : DirTree -> Prop) :
  (∀ files, Forall (fun p : FileInfo * DirTree => P p.2) files -> P (ReadDirOk files)) ->
  (∀ e, P (ReadDirErr e)) ->
  ∀ t, P t.
Proof.
  intros Hok Herr. fix IH 1. intros [files | e]; [| apply Herr].
  apply Hok. induction files as [| [fi sub] rest IHrest]; constructor; [apply IH | exact IHrest].
Qed.

Lemma traverseDir_unfold {S : Type} (t : DirTree) dir
    (cb : string -> S -> S * option error) s :
  traverseDir t dir cb s =
  match t with
  | ReadDirErr err => (s, Some err)
  | ReadDirOk files => traverseFiles dir cb files s
  end.
Proof. destruct t; reflexivity. Qed.

Lemma traverseFiles_nil {S : Type} dir (cb : string -> S -> S * option error) s :
  traverseFiles dir cb [] s = (s, None).
Proof. reflexivity. Qed.

Lemma traverseFiles_cons {S : Type} dir (cb : string -> S -> S * option error)
    fi sub rest s :
  traverseFiles dir cb ((fi, sub) :: rest) s =
  if decide (Name fi = GitDirName) then traverseFiles dir cb rest s
  else if IsDir fi then
    match traverseDir sub (filepath_Join dir (Name fi)) cb s with
    | (s', Some err) => (s', Some err)
    | (s', None) => traverseFiles dir cb rest s'
    end
  else
    match cb (slice_from_1 (filepath_Join dir (Name fi))) s with
    | (s', Some err) => (s', Some err)
    | (s', None) => traverseFiles dir cb rest s'
    end.
Proof. reflexivity. Qed.

Lemma recordPath_eq (p : string) (seen : list string) :
  recordPath p seen = ((seen ++ [p])%list, None).
Proof. reflexivity. Qed.

(** Recording appends to what was already seen. *)
Lemma recordPath_shift (t : DirTree) :
  ∀ dir seen,
    traverseDir t dir recordPath seen = ((seen ++ callbackPaths t dir)%list, walkError t dir).
Proof.
  induction t as [files IH | e] using DirTree_nested_ind; intros dir seen.
  2: { unfold callbackPaths, walkError. simpl. by rewrite app_nil_r. }
  unfold callbackPaths, walkError. rewrite !traverseDir_unfold.
  revert seen. induction files as [| [fi sub] rest IHrest]; intros seen.
  { rewrite !traverseFiles_nil. simpl. by rewrite app_nil_r. }
  inversion IH as [| ? ? IHsub IHfiles]; subst. simpl in IHsub.
  specialize (IHrest IHfiles).
  rewrite !traverseFiles_cons.
  destruct (decide (Name fi = GitDirName)); [apply IHrest |].
  destruct (IsDir fi).
  - rewrite (IHsub _ seen), (IHsub _ []).
    destruct (walkError sub _); [done |].
    set (ps := callbackPaths sub _).
    rewrite (IHrest (seen ++ ps)%list). simpl.
    destruct ps as [| p0 ps]; [by rewrite app_nil_r |].
    rewrite !(IHrest (p0 :: ps)). simpl.
    by rewrite <- app_assoc.
  - set (p := slice_from_1 _).
    rewrite !recordPath_eq.
    rewrite (IHrest (seen ++ [p])%list), !(IHrest ([] ++ [p])%list). simpl.
    by rewrite <- app_assoc.
Qed.

Lemma recordPath_shift_files (dir : string) (rest : list (FileInfo * DirTree))
    (seen : list string) :
  traverseFiles dir recordPath rest seen =
  ((seen ++ (traverseFiles dir recordPath rest []).1)%list,
   (traverseFiles dir recordPath rest []).2).
Proof. exact (recordPath_shift (ReadDirOk rest) dir seen). Qed.

(** A callback that cannot fail is folded over the recorded paths. *)
Lemma traverseDir_fold {S : Type} (f : string -> S -> S) (t : DirTree) :
  ∀ dir s,
    traverseDir t dir (fun p s => (f p s, None)) s =
    (foldl (fun s p => f p s) s (callbackPaths t dir), walkError t dir).
Proof.
  induction t as [files IH | e] using DirTree_nested_ind; intros dir s.
  2: { done. }
  unfold callbackPaths, walkError. rewrite !traverseDir_unfold.
  revert s. induction files as [| [fi sub] rest IHrest]; intros s.
  { done. }
  inversion IH as [| ? ? IHsub IHfiles]; subst. simpl in IHsub.
  specialize (IHrest IHfiles).
  rewrite !traverseFiles_cons.
  destruct (decide (Name fi = GitDirName)); [apply IHrest |].
  destruct (IsDir fi).
  - rewrite IHsub, (recordPath_shift sub _ []).
    destruct (walkError sub _); [done |].
    rewrite IHrest. simpl.
    rewrite (recordPath_shift_files dir rest (callbackPaths sub _)). simpl.
    by rewrite foldl_app.
  - rewrite IHrest, recordPath_eq.
    rewrite (recordPath_shift_files dir rest ([] ++ _)%list). simpl. done.
Qed.

Lemma callbackPaths_cons (dir : string) fi sub rest :
  callbackPaths (ReadDirOk ((fi, sub) :: rest)) dir =
  if decide (Name fi = GitDirName) then callbackPaths (ReadDirOk rest) dir
  else if IsDir fi then
    (callbackPaths sub (filepath_Join dir (Name fi)) ++
     match walkError sub (filepath_Join dir (Name fi)) with
     | Some _ => []
     | None => callbackPaths (ReadDirOk rest) dir
     end)%list
  else slice_from_1 (filepath_Join dir (Name fi)) :: callbackPaths (ReadDirOk rest) dir.
Proof.
  unfold callbackPaths at 1. rewrite traverseDir_unfold, traverseFiles_cons.
  destruct (decide (Name fi = GitDirName)); [done |].
  destruct (IsDir fi).
  - rewrite (recordPath_shift sub _ []).
    destruct (walkError sub _); simpl; [by rewrite app_nil_r |].
    rewrite (recordPath_shift_files dir rest (callbackPaths sub _)). done.
  - rewrite recordPath_eq, (recordPath_shift_files dir rest ([] ++ _)%list). done.
Qed.

(** Paths handed to the callback inherit what the directories on the way
    and the entry names guarantee. *)
Lemma callbackPaths_closed (ok : string -> bool) (Q R : string -> Prop) :
  (∀ d name, Q d -> name ≠ GitDirName -> ok name = true ->
     Q (filepath_Join d name) ∧ R (slice_from_1 (filepath_Join d name))) ->
  ∀ t d, allNames ok t = true -> Q d -> ∀ p, p ∈ callbackPaths t d -> R p.
Proof.
  intros Hstep t.
  induction t as [files IH | e] using DirTree_nested_ind; intros d Hnames HQ p Hin.
  2: { unfold callbackPaths in Hin. simpl in Hin. by apply elem_of_nil in Hin. }
  induction files as [| [fi sub] rest IHrest].
  { unfold callbackPaths in Hin. simpl in Hin. by apply elem_of_nil in Hin. }
  inversion IH as [| ? ? IHsub IHfiles]; subst. simpl in IHsub.
  simpl in Hnames. apply andb_true_iff in Hnames as [Hhead Hrest].
  apply andb_true_iff in Hhead as [Hname Hsub].
  specialize (IHrest IHfiles Hrest).
  rewrite callbackPaths_cons in Hin.
  destruct (decide (Name fi = GitDirName)) as [| Hne]; [by apply IHrest |].
  destruct (Hstep d (Name fi) HQ Hne Hname) as [HQ' HR'].
  destruct (IsDir fi).
  - apply elem_of_app in Hin as [Hin | Hin].
    + by apply (IHsub (filepath_Join d (Name fi))).
    + destruct (walkError sub _); [by apply elem_of_nil in Hin | by apply IHrest].
  - apply elem_of_cons in Hin as [-> | Hin]; [done | by apply IHrest].
Qed.

Lemma allNames_any (t : DirTree) : allNames (fun _ => true) t = true.
Proof.
  induction t as [files IH | e] using DirTree_nested_ind; [| done].
  simpl. induction files as [| [fi sub] rest IHrest]; [done |].
  inversion IH as [| ? ? IHsub IHfiles]; subst. simpl in *.
  by rewrite IHsub, IHrest.
Qed.

(** *** Components of the paths *)

Lemma splitPath_nonempty (s : string) : splitPath s ≠ [].
Proof.
  destruct s as [| c s]; simpl; [done |].
  destruct (decide (c = "/"%char)); [done |]. by destruct (splitPath s).
Qed.

Lemma splitPath_app (a b : string) :
  splitPath (a +:+ String "/" b) = (splitPath a ++ splitPath b)%list.
Proof.
  induction a as [| c a IH]; simpl.
  { done. }
  destruct (decide (c = "/"%char)); [by rewrite IH |].
  rewrite IH. pose proof (splitPath_nonempty a).
  by destruct (splitPath a).
Qed.

Lemma splitPath_noSlash (n : string) : noSlash n = true -> splitPath n = [n].
Proof.
  induction n as [| c n IH]; simpl; [done |].
  destruct (decide (c = "/"%char)); [done |]. intros H. by rewrite IH.
Qed.

Lemma filepath_Join_cases (d name : string) :
  (name = "" ∧ filepath_Join d name = d)
  ∨ (name ≠ "" ∧ d = "/" ∧ filepath_Join d name = String "/" name)
  ∨ (name ≠ "" ∧ d ≠ "/" ∧ filepath_Join d name = d +:+ String "/" name).
Proof.
  unfold filepath_Join.
  destruct (decide (name = "")); [by left |].
  destruct (decide (d = "/")); [right; left | right; right]; done.
Qed.

Lemma join_not_metadata (d name : string) :
  underRoot (fun q => q ≠ GitDirName) d -> name ≠ GitDirName ->
  underRoot (fun q => q ≠ GitDirName) (filepath_Join d name)
  ∧ slice_from_1 (filepath_Join d name) ≠ GitDirName.
Proof.
  intros (q & -> & Hq) Hname.
  assert (Hgoal : ∃ q', filepath_Join (String "/" q) name = String "/" q' ∧ q' ≠ GitDirName).
  { destruct (filepath_Join_cases (String "/" q) name)
      as [[_ ->] | [(_ & _ & ->) | (_ & _ & ->)]]; [by eexists | by eexists |].
    exists (q +:+ String "/" name). split; [done |].
    intros Heq. apply (f_equal splitPath) in Heq.
    rewrite splitPath_app in Heq. apply (f_equal length) in Heq.
    rewrite length_app in Heq.
    pose proof (splitPath_nonempty q). pose proof (splitPath_nonempty name).
    destruct (splitPath q), (splitPath name); simpl in *; try done. lia. }
  destruct Hgoal as (q' & Heq & Hq'). rewrite Heq. split; [by exists q' | done].
Qed.

Lemma join_no_metadata_component (d name : string) :
  underRoot (fun q => GitDirName ∉ splitPath q) d -> name ≠ GitDirName ->
  noSlash name = true ->
  underRoot (fun q => GitDirName ∉ splitPath q) (filepath_Join d name)
  ∧ GitDirName ∉ splitPath (slice_from_1 (filepath_Join d name)).
Proof.
  intros (q & -> & Hq) Hname Hplain.
  assert (Hgoal : ∃ q', filepath_Join (String "/" q) name = String "/" q'
                         ∧ GitDirName ∉ splitPath q').
  { destruct (filepath_Join_cases (String "/" q) name)
      as [[_ ->] | [(_ & _ & ->) | (_ & _ & ->)]]; [by eexists | |].
    - eexists. split; [done |]. rewrite (splitPath_noSlash name Hplain).
      intros Hin. apply list_elem_of_singleton in Hin. done.
    - exists (q +:+ String "/" name). split; [done |].
      rewrite splitPath_app, (splitPath_noSlash name Hplain).
      intros Hin. apply elem_of_app in Hin as [Hin | Hin]; [done |].
      apply list_elem_of_singleton in Hin. done. }
  destruct Hgoal as (q' & Heq & Hq'). rewrite Heq. split; [by exists q' | done].
Qed.

(** What the walk from the root hands to the callback. *)
Lemma callbackPaths_skip_metadata (t : DirTree) (p : string) :
  p ∈ callbackPaths t "/" ->
  p ≠ GitDirName ∧ (plainNames t = true -> GitDirName ∉ splitPath p).
Proof.
  intros Hin. split.
  - apply (callbackPaths_closed (fun _ => true)
             (underRoot (fun q => q ≠ GitDirName)) (fun p => p ≠ GitDirName))
      with (t := t) (d := "/"); try done.
    + intros d name HQ Hne _. by apply join_not_metadata.
    + apply allNames_any.
    + by exists "".
  - intros Hplain.
    apply (callbackPaths_closed noSlash
             (underRoot (fun q => GitDirName ∉ splitPath q))
             (fun p => GitDirName ∉ splitPath p))
      with (t := t) (d := "/"); try done.
    + intros d name HQ Hne Hok. by apply join_no_metadata_component.
    + exists "". split; [done |]. simpl. intros Hin'.
      apply list_elem_of_singleton in Hin'. done.
Qed.

(** A callback is consulted only on the paths the walk hands over: two
    callbacks that agree there give the same walk. *)
Lemma traverseDir_agree {S : Type} (ok : string -> bool) (Q R : string -> Prop)
    (cb cb' : string -> S -> S * option error) :
  (∀ d name, Q d -> name ≠ GitDirName -> ok name = true ->
     Q (filepath_Join d name) ∧ R (slice_from_1 (filepath_Join d name))) ->
  (∀ p s, R p -> cb p s = cb' p s) ->
  ∀ t d, allNames ok t = true -> Q d ->
    ∀ s, traverseDir t d cb s = traverseDir t d cb' s.
Proof.
  intros Hstep Hagree t.
  induction t as [files IH | e] using DirTree_nested_ind; intros d Hnames HQ s; [| done].
  rewrite !traverseDir_unfold. revert s.
  induction files as [| [fi sub] rest IHrest]; intros s; [done |].
  inversion IH as [| ? ? IHsub IHfiles]; subst. simpl in IHsub.
  simpl in Hnames. apply andb_true_iff in Hnames as [Hhead Hrest].
  apply andb_true_iff in Hhead as [Hname Hsub].
  specialize (IHrest IHfiles Hrest).
  rewrite !traverseFiles_cons.
  destruct (decide (Name fi = GitDirName)) as [| Hne]; [apply IHrest |].
  destruct (Hstep d (Name fi) HQ Hne Hname) as [HQ' HR'].
  destruct (IsDir fi).
  - rewrite (IHsub _ Hsub HQ' s).
    destruct (traverseDir sub _ cb' s) as [s' [err |]]; [done | apply IHrest].
  - rewrite (Hagree _ s HR').
    destruct (cb' _ s) as [s' [err |]]; [done | apply IHrest].
Qed.

(** ** Status reconciliation *)

Lemma statusStep_table (s : gmap string FileStatus) (path : string)
    (files : gmap string StatusCode) :
  statusStep s path files =
  match decisionTable (s !! path) with
  | Some c => <[path := c]> files
  | None => files
  end.
Proof.
  unfold statusStep, decisionTable.
  destruct (s !! path) as [[st wt ex] |]; [| done].
  destruct st, wt; reflexivity.
Qed.

Lemma foldl_statusStep (s : gmap string FileStatus) (paths : list string) :
  ∀ (files : gmap string StatusCode) (k : string),
    foldl (fun m p => statusStep s p m) files paths !! k =
    if decide (k ∈ paths) then
      match decisionTable (s !! k) with
      | Some c => Some c
      | None => files !! k
      end
    else files !! k.
Proof.
  induction paths as [| p paths IH]; intros files k; simpl.
  { done. }
  rewrite IH, statusStep_table.
  destruct (decide (k ∈ paths)) as [Hin | Hnin].
  - rewrite decide_True by (by right).
    destruct (decisionTable (s !! k)) as [c |] eqn:Hk; [done |].
    destruct (decide (p = k)) as [-> | Hne].
    + by rewrite Hk.
    + destruct (decisionTable (s !! p)); [by rewrite lookup_insert_ne | done].
  - destruct (decide (p = k)) as [-> | Hne].
    + rewrite decide_True by (by left).
      destruct (decisionTable (s !! k)); [by rewrite lookup_insert_eq | done].
    + rewrite decide_False by (intros [-> | ?]%elem_of_cons; done).
      destruct (decisionTable (s !! p)); [by rewrite lookup_insert_ne | done].
Qed.

Section StatusFacts.
Context {E : Extern}.

(** [GetStatus] reads the raw status and the tree and changes nothing. *)
Lemma Git_GetStatus_eq (g : Git) (w : W) :
  Git_GetStatus g w =
  (Ret match wt_Status (wt g) w with
       | Err err => Err (ErrWrap err "error getting status")
       | Ok s =>
         match walkError (fs_tree (fs g) w) "/" with
         | Some err => Err err
         | None =>
           Ok (foldl (fun m p => statusStep s p m) ∅ (callbackPaths (fs_tree (fs g) w) "/"))
         end
       end, w).
Proof.
  unfold Git_GetStatus, bind, look, ret.
  destruct (wt_Status (wt g) w) as [s | err]; [| done].
  change (statusCallback s) with (fun p m => (statusStep s p m, @None error)).
  rewrite traverseDir_fold.
  by destruct (walkError _ _).
Qed.

Lemma Git_GetStatus_lookup (g : Git) (w w' : W) s files (path : string) :
  wt_Status (wt g) w = Ok s ->
  Git_GetStatus g w = (Ret (Ok files), w') ->
  files !! path =
    if decide (path ∈ callbackPaths (fs_tree (fs g) w) "/")
    then decisionTable (s !! path) else None.
Proof.
  intros Hs Hget. rewrite Git_GetStatus_eq, Hs in Hget.
  destruct (walkError _ _); [done |].
  injection Hget as <- _. rewrite foldl_statusStep, lookup_empty.
  destruct (decide _); [| done]. by destruct (decisionTable _).
Qed.

End StatusFacts.

Lemma git_byte_not_Inconsistent (c : git_StatusCode) : git_byte c ≠ Inconsistent.
Proof. by destruct c. Qed.

Lemma decisionTable_Inconsistent (entry : option FileStatus) :
  decisionTable entry = Some Inconsistent ↔
  ∃ st, entry = Some st ∧ Staging st ≠ git_Unmodified
        ∧ Worktree st ≠ git_Unmodified ∧ Staging st ≠ Worktree st.
Proof.
  split.
  - destruct entry as [[st wt ex] |]; [| done]. intros H.
    exists (mkFileStatus st wt ex). simpl.
    destruct st, wt; simpl in H; try done;
      try (injection H as H; by apply git_byte_not_Inconsistent in H).
  - intros ([st wt ex] & -> & H1 & H2 & H3). simpl in *.
    destruct st, wt; done.
Qed.

(** C1. For every path the walk visits, the status map holds what the
    decision table gives for the raw (staging, worktree) pair, and nothing
    else: no entry and (Unmodified, Unmodified) are left out; when exactly
    one side is Unmodified the other side's code is recorded; equal
    modified sides record their common code; and [Inconsistent] is recorded
    exactly when both sides are defined, modified and unequal. *)
Theorem status_decision_table `{E : Extern} (g : Git) (w w' : W)
    (s : gmap string FileStatus) (files : gmap string StatusCode) (path : string) :
  wt_Status (wt g) w = Ok s ->
  Git_GetStatus g w = (Ret (Ok files), w') ->
  path ∈ callbackPaths (fs_tree (fs g) w) "/" ->
  files !! path = decisionTable (s !! path)
  ∧ (s !! path = None -> files !! path = None)
  ∧ (∀ st, s !! path = Some st ->
       (Staging st = git_Unmodified -> Worktree st = git_Unmodified ->
          files !! path = None)
       ∧ (Staging st = git_Unmodified -> Worktree st ≠ git_Unmodified ->
            files !! path = Some (git_byte (Worktree st)))
       ∧ (Staging st ≠ git_Unmodified -> Worktree st = git_Unmodified ->
            files !! path = Some (git_byte (Staging st)))
       ∧ (Staging st ≠ git_Unmodified -> Worktree st ≠ git_Unmodified ->
            Staging st = Worktree st ->
            files !! path = Some (git_byte (Staging st))))
  ∧ (files !! path = Some Inconsistent ↔
       ∃ st, s !! path = Some st ∧ Staging st ≠ git_Unmodified
             ∧ Worktree st ≠ git_Unmodified ∧ Staging st ≠ Worktree st).
Proof.
  intros Hs Hget Hin.
  pose proof (Git_GetStatus_lookup g w w' s files path Hs Hget) as Hlook.
  rewrite decide_True in Hlook by done.
  unfold StatusCode in *.
  revert Hlook. generalize (files !! path). intros found ->.
  split; [done |]. split; [by intros -> |]. split.
  - intros [st wt ex] ->. simpl.
    repeat split; intros; destruct st, wt; simpl in *; done.
  - apply decisionTable_Inconsistent.
Qed.

Lemma status_decision_table_witness :
  (<["a.txt" := Modified]> (<["docs/b.txt" := Inconsistent]> ∅) : gmap string StatusCode)
    !! "docs/b.txt" = decisionTable (Sim.raw0 !! "docs/b.txt").
Proof.
  refine (proj1 (status_decision_table (E := Sim.engine) Sim.client Sim.world0 Sim.world0
                   Sim.raw0 _ "docs/b.txt" _ _ _)).
  - reflexivity.
  - vm_compute. reflexivity.
  - apply (bool_decide_unpack _). vm_compute. exact I.
Defined.

(** C6. The metadata directory is neither reported nor entered: no path
    handed to the callback is the reserved name, and when entry names are
    plain (no separator inside) no component of such a path is the reserved
    name; a callback is never consulted on the reserved name, so changing it
    there changes nothing; and the same holds for every key of the status
    map. *)
Theorem metadata_never_visited `{E : Extern} (g : Git) (w : W) :
  let t := fs_tree (fs g) w in
  (∀ p, p ∈ callbackPaths t "/" ->
     p ≠ GitDirName ∧ (plainNames t = true -> GitDirName ∉ splitPath p))
  ∧ (∀ (S : Type) (cb cb' : string -> S -> S * option error) (s : S),
       (∀ p s, p ≠ GitDirName -> cb p s = cb' p s) ->
       traverseDir t "/" cb s = traverseDir t "/" cb' s)
  ∧ (∀ files w' k, Git_GetStatus g w = (Ret (Ok files), w') ->
       is_Some (files !! k) ->
       k ≠ GitDirName ∧ (plainNames t = true -> GitDirName ∉ splitPath k)).
Proof.
  intros t. split; [apply callbackPaths_skip_metadata |]. split.
  - intros S cb cb' s Hagree.
    apply (traverseDir_agree (fun _ => true)
             (underRoot (fun q => q ≠ GitDirName)) (fun p => p ≠ GitDirName)).
    + intros d name HQ Hne _. by apply join_not_metadata.
    + intros p s' Hp. by apply Hagree.
    + apply allNames_any.
    + by exists "".
  - intros files w' k Hget [c Hc].
    apply callbackPaths_skip_metadata.
    rewrite Git_GetStatus_eq in Hget.
    destruct (wt_Status (wt g) w) as [s | err] eqn:Hs; [| done].
    destruct (walkError _ _); [done |].
    injection Hget as <- _. rewrite foldl_statusStep, lookup_empty in Hc.
    destruct (decide (k ∈ _)); [done | done].
Qed.

Lemma metadata_never_visited_witness :
  "docs/b.txt" ≠ GitDirName ∧ GitDirName ∉ splitPath "docs/b.txt".
Proof.
  assert (Hin : "docs/b.txt" ∈ callbackPaths Sim.files0 "/").
  { apply (bool_decide_unpack _). vm_compute. exact I. }
  destruct (proj1 (metadata_never_visited (E := Sim.engine) Sim.client Sim.world0)
              "docs/b.txt" Hin) as [Hne Hcomp].
  split; [exact Hne | apply Hcomp; reflexivity].
Defined.

(** C8. [GetStatus] always returns, leaves the store and the repository as
    they were, and a second call right after the first returns the same
    map (or the same error). *)
Theorem status_idempotent `{E : Extern} (g : Git) (w : W) :
  ∃ r : result (gmap string StatusCode),
    Git_GetStatus g w = (Ret r, w)
    ∧ (let* r1 := Git_GetStatus g in
       let* r2 := Git_GetStatus g in
       ret (r1, r2)) w = (Ret (r, r), w).
Proof.
  eexists. split; [apply Git_GetStatus_eq |].
  unfold bind, ret. rewrite Git_GetStatus_eq. by rewrite Git_GetStatus_eq.
Qed.

(** ** Sync *)

Section MonadFacts.
Context {E : Extern}.

Lemma call_eq {A : Type} (f : W -> A * W) (w : W) :
  call f w = (Ret (f w).1, (f w).2).
Proof. unfold call. by destruct (f w). Qed.

Lemma bind_call {A B : Type} (f : W -> A * W) (k : A -> M B) (w : W) :
  bind (call f) k w = k (f w).1 (f w).2.
Proof. unfold bind. by rewrite call_eq. Qed.

Lemma bind_look {A B : Type} (f : W -> A) (k : A -> M B) (w : W) :
  bind (look f) k w = k (f w) w.
Proof. reflexivity. Qed.

Lemma bind_ret {A B : Type} (a : A) (k : A -> M B) (w : W) :
  bind (ret a) k w = k a w.
Proof. reflexivity. Qed.

Lemma bind_bind {A B C : Type} (m : M A) (f : A -> M B) (k : B -> M C) (w : W) :
  bind (bind m f) k w = bind m (fun a => bind (f a) k) w.
Proof. unfold bind. by destruct (m w) as [[a |] w']. Qed.

Lemma ret_eq {A : Type} (a : A) (w : W) : ret a w = (Ret a, w).
Proof. reflexivity. Qed.

End MonadFacts.

(** Case analysis on the next library answer the goal is waiting for. *)
Ltac next_answer :=
  match goal with
  | |- context [match ?x with _ => _ end] => destruct x eqn:?
  | |- context [if ?x then _ else _] => destruct x eqn:?
  end; simpl.

(** Case analysis on an answer that is not itself a computation still to
    run. *)
Ltac plain_answer :=
  match goal with
  | |- context [match ?x with _ => _ end] =>
    lazymatch x with
    | context [bind] => fail
    | context [call] => fail
    | context [deref] => fail
    | _ => destruct x eqn:?
    end
  | |- context [if ?x then _ else _] => destruct x eqn:?
  end.

(** Run the monad up to the next answer. *)
Ltac run_M :=
  repeat first [ rewrite bind_bind | rewrite bind_call | rewrite bind_look | rewrite bind_ret
               | rewrite call_eq | rewrite ret_eq | progress simpl | plain_answer ].

Section SyncFacts.
Context {E : Extern}.

Lemma buildDotStore_returns (store : billy_Filesystem) (flag : bool) (w : W) :
  ∃ r w', buildDotStore store flag w = (Ret r, w').
Proof.
  unfold buildDotStore, chrootDot. run_M; eauto.
Qed.

Lemma Git_Reset_returns (git : Git) (w : W) :
  ∃ git' e w', Git_Reset git w = (Ret (git', e), w').
Proof.
  unfold Git_Reset. rewrite bind_call.
  destruct (util_RemoveAll (fs git) GitDirName w).1 as [err |]; [rewrite ret_eq; eauto |].
  unfold bind at 1.
  destruct (buildDotStore_returns (fs git) true (util_RemoveAll (fs git) GitDirName w).2)
    as ([ex [st | err]] & w2 & ->); [| rewrite ret_eq; eauto].
  run_M; eauto.
Qed.

Lemma runStep_returns (s : Step) (git : Git) (w : W) :
  ∃ git' e w', runStep s git w = (Ret (git', e), w').
Proof.
  destruct s; simpl; [apply Git_Reset_returns | | |];
    unfold Git_AddAll, Git_Commit, Git_Push; run_M; eauto.
Qed.


Lemma Runs_functional plan git w ran1 git1 r1 w1 ran2 git2 r2 w2 :
  Runs plan git w ran1 git1 r1 w1 ->
  Runs plan git w ran2 git2 r2 w2 ->
  ran1 = ran2 ∧ git1 = git2 ∧ r1 = r2 ∧ w1 = w2.
Proof.
  intros H1. revert ran2 git2 r2 w2.
  induction H1 as [git w | s rest git w git' err w' Hs
                   | s rest git w git' w' ran git'' r w'' Hs Hrest IH];
    intros ran2 git2 r2 w2 H2; inversion H2; subst; try done;
    match goal with
    | Ha : runStep ?s ?g ?w = _, Hb : runStep ?s ?g ?w = _ |- _ =>
      rewrite Ha in Hb; simplify_eq
    end; [done |].
  match goal with
  | H : Runs rest _ _ _ _ _ _ |- _ => apply IH in H; destruct H as (-> & -> & -> & ->)
  end.
  done.
Qed.


Lemma Runs_app p1 p2 git w ran1 git1 w1 ran2 git2 r w2 :
  Runs p1 git w ran1 git1 None w1 ->
  Runs p2 git1 w1 ran2 git2 r w2 ->
  Runs (p1 ++ p2) git w (ran1 ++ ran2) git2 r w2.
Proof.
  intros H1. remember None as r1 eqn:Hr1. revert Hr1.
  induction H1 as [git w | s rest git w git' err w' Hs
                   | s rest git w git' w' ran git'' r0 w'' Hs Hrest IH];
    intros Hr1 H2; simpl.
  - done.
  - done.
  - eapply Runs_next; [done |]. by apply IH.
Qed.

(** After a successful reset, a purging sync goes on as a plain sync of the
    renewed client. *)
Lemma Sync_after_reset (git git1 : Git) (store : billy_Filesystem) (w w1 : W) :
  Git_Reset git w = (Ret (git1, None), w1) ->
  GitFs_Sync {| gf_git := Some git; gf_fs := store |} true w =
  GitFs_Sync {| gf_git := Some git1; gf_fs := store |} false w1.
Proof.
  intros HR. unfold GitFs_Sync, bind, deref, ret, withGit. simpl.
  rewrite HR. reflexivity.
Qed.

Lemma Sync_plain_runs (git : Git) (store : billy_Filesystem) (w : W) :
  ∃ ran r w',
    Runs (syncPlan false) git w ran git r w'
    ∧ GitFs_Sync {| gf_git := Some git; gf_fs := store |} false w =
      (Ret ({| gf_git := Some git; gf_fs := store |}, r), w').
Proof.
  unfold GitFs_Sync, syncPlan. simpl.
  unfold bind at 1. unfold ret at 1. unfold bind at 1. unfold deref at 1. unfold ret at 1.
  simpl.
  destruct (wt_Add (wt git) "" w) as [e1 w1] eqn:Hadd.
  assert (Hstep1 : runStep StepAddAll git w = (Ret (git, e1), w1)).
  { unfold runStep, Git_AddAll, bind, call, ret. by rewrite Hadd. }
  unfold bind at 1. unfold Git_AddAll, call at 1. rewrite Hadd.
  destruct e1 as [err1 |].
  { do 3 eexists. split; [by apply Runs_fail | done]. }
  destruct (runStep_returns StepCommit git w1) as (git2 & e2 & w2 & Hstep2).
  assert (git2 = git) as ->.
  { revert Hstep2. unfold runStep, Git_Commit, bind, call, ret.
    repeat next_answer; congruence. }
  assert (Hc : (let* now := call time_Now in
                Git_Commit git
                  ("gitfs sync - " +:+ time_Format now "2006-01-02T15:04:05Z07:00")) w1
               = (Ret e2, w2)).
  { revert Hstep2. unfold runStep, Git_Commit, bind, call, ret.
    repeat next_answer; congruence. }
  unfold bind at 1. unfold bind at 1 in Hc.
  destruct (call time_Now w1) as [[now |] w1'] eqn:Hnow; [| done].
  unfold bind at 1. rewrite Hc.
  destruct e2 as [err2 |].
  { do 3 eexists. split; [| done].
    eapply Runs_next; [done |]. by apply Runs_fail. }
  destruct (repo_Push (repo git)
              (mkPushOptions "origin" ["+refs/heads/master:refs/heads/master"] (auth git)) w2)
    as [e3 w3] eqn:Hpush.
  assert (Hstep3 : runStep StepPush git w2 = (Ret (git, e3), w3)).
  { unfold runStep, Git_Push, bind, call, ret. by rewrite Hpush. }
  unfold bind at 1. unfold Git_Push, call at 1. rewrite Hpush.
  destruct e3 as [err3 |].
  - do 3 eexists. split; [| done].
    eapply Runs_next; [done |]. eapply Runs_next; [done |]. by apply Runs_fail.
  - do 3 eexists. split; [| done].
    eapply Runs_next; [done |]. eapply Runs_next; [done |].
    eapply Runs_next; [done |]. apply Runs_done.
Qed.

Lemma Sync_reset_fails (git git1 : Git) (store : billy_Filesystem) (w w1 : W) (err : error) :
  Git_Reset git w = (Ret (git1, Some err), w1) ->
  GitFs_Sync {| gf_git := Some git; gf_fs := store |} true w =
  (Ret ({| gf_git := Some git1; gf_fs := store |}, Some (ErrWrap err "error resetting git")),
   w1).
Proof.
  intros HR. unfold GitFs_Sync, bind, deref, ret, withGit. simpl.
  rewrite HR. reflexivity.
Qed.

Lemma Sync_runs (git : Git) (store : billy_Filesystem) (purge : bool) (w : W) :
  ∃ ran git' r w',
    Runs (syncPlan purge) git w ran git' r w'
    ∧ GitFs_Sync {| gf_git := Some git; gf_fs := store |} purge w =
      (Ret ({| gf_git := Some git'; gf_fs := store |}, r), w').
Proof.
  destruct purge.
  - destruct (Git_Reset_returns git w) as (git1 & [err |] & w1 & HR).
    + do 4 eexists. split; [| by apply Sync_reset_fails].
      by apply Runs_fail.
    + destruct (Sync_plain_runs git1 store w1) as (ran & r & w' & Hruns & Hsync).
      do 4 eexists. split; [| by rewrite (Sync_after_reset git git1 store w w1 HR)].
      by eapply Runs_next.
  - destruct (Sync_plain_runs git store w) as (ran & r & w' & Hruns & Hsync).
    by do 4 eexists.
Qed.

Lemma Sync_of_Runs (g : GitFs) (git : Git) (purge : bool) (w : W) ran git' r w' :
  gf_git g = Some git ->
  Runs (syncPlan purge) git w ran git' r w' ->
  GitFs_Sync g purge w = (Ret (withGit g git', r), w').
Proof.
  intros Hg Hruns. destruct g as [? store]. simpl in Hg. subst.
  destruct (Sync_runs git store purge w) as (ran0 & git0 & r0 & w0 & Hruns0 & Hsync).
  destruct (Runs_functional _ _ _ _ _ _ _ _ _ _ _ Hruns Hruns0) as (-> & -> & -> & ->).
  done.
Qed.


End SyncFacts.



(** ** Push *)

(** C3, as the claim states it, fails: the refspec of [Push] is a forced
    one, so on an engine that honours it a diverged remote branch is
    replaced by the local one and neither [Push] nor [Sync] reports an
    error. *)
Lemma Push_overwrites_diverged_remote :
  diverged (Sim.local_ Sim.world0) (Sim.remote_ Sim.world0) = true
  ∧ Git_Push Sim.client Sim.world0 = (Ret None, Sim.setRemote [1; 2] Sim.world0)
  ∧ Sim.remote_ (Sim.setRemote [1; 2] Sim.world0) ≠ Sim.remote_ Sim.world0
  ∧ (GitFs_Sync Sim.handle false Sim.world0).1 = Ret (Sim.handle, None)
  ∧ Sim.remote_ (GitFs_Sync Sim.handle false Sim.world0).2 = [1; 2; 9].
Proof.
  split; [reflexivity |]. split; [reflexivity |].
  split; [vm_compute; congruence |]. split; vm_compute; reflexivity.
Qed.

(** C3, amended. [Push] asks the engine for an update of master on origin
    with exactly the refspec [+refs/heads/master:refs/heads/master], a
    forced one, and hands back the engine's answer as it is, with no pull
    and no merge of its own; when the earlier steps of a sync succeed, sync
    returns nil if that push succeeds and otherwise the push error wrapped
    as a push failure. Under the git library's push rule ([pushUpdate])
    this refspec makes a remote branch that differs from the local one
    become the local one instead of being refused; whether a given remote
    accepts is the engine's answer. *)
Theorem Push_forced_and_surfaced `{E : Extern} (g : GitFs) (git : Git) (purge : bool)
    (w : W) (ran : list Step) (git1 : Git) (w1 w2 : W) (e : option error) :
  gf_git g = Some git ->
  Runs ((if purge then [StepReset] else []) ++ [StepAddAll; StepCommit])
    git w ran git1 None w1 ->
  Git_Push git1 w1 = (Ret e, w2) ->
  (∃ opts, opts = mkPushOptions "origin" ["+refs/heads/master:refs/heads/master"] (auth git1)
           ∧ push_RemoteName opts = "origin"
           ∧ push_RefSpecs opts = ["+refs/heads/master:refs/heads/master"]
           ∧ Forall (fun rs => RefSpec_IsForceUpdate rs = true) (push_RefSpecs opts)
           ∧ push_Auth opts = auth git1
           ∧ repo_Push (repo git1) opts w1 = (e, w2)
           ∧ (∀ rs local remote, rs ∈ push_RefSpecs opts -> local ≠ remote ->
                pushUpdate rs local remote = (None, local)))
  ∧ GitFs_Sync g purge w =
      (Ret (withGit g git1,
            (fun e0 => ErrWrap e0 "error pushing change to remote repo") <$> e), w2).
Proof.
  intros Hg Hruns Hpush. split.
  - exists (mkPushOptions "origin" ["+refs/heads/master:refs/heads/master"] (auth git1)).
    split_and!; try reflexivity.
    + by repeat constructor.
    + revert Hpush. unfold Git_Push. rewrite call_eq.
      simpl. destruct (repo_Push _ _ w1). simpl. congruence.
    + simpl. intros rs local remote Hrs Hne.
      apply list_elem_of_singleton in Hrs as ->.
      unfold pushUpdate. by rewrite decide_False.
  - apply Sync_of_Runs with (git := git) (ran := (ran ++ [StepPush])%list); [done |].
    replace (syncPlan purge)
      with (((if purge then [StepReset] else []) ++ [StepAddAll; StepCommit])
              ++ [StepPush])%list by (by destruct purge).
    eapply Runs_app; [done |].
    assert (Hstep : runStep StepPush git1 w1 = (Ret (git1, e), w2)).
    { simpl. unfold bind. by rewrite Hpush. }
    destruct e as [err |]; simpl.
    + by apply Runs_fail.
    + eapply Runs_next; [done | apply Runs_done].
Qed.

Lemma Push_forced_and_surfaced_witness :
  GitFs_Sync Sim.handle false (Sim.setRemote [1; 2; 9] Sim.world0) =
  (Ret (withGit Sim.handle Sim.client,
        Some (ErrWrap NoErrAlreadyUpToDate "error pushing change to remote repo")),
   Sim.setLocal [1; 2; 9] (Sim.tick (Sim.tick (Sim.setRemote [1; 2; 9] Sim.world0)))).
Proof.
  refine (proj2 (Push_forced_and_surfaced (E := Sim.engine) Sim.handle Sim.client false
                   (Sim.setRemote [1; 2; 9] Sim.world0) [StepAddAll; StepCommit] Sim.client
                   (Sim.setLocal [1; 2; 9]
                      (Sim.tick (Sim.tick (Sim.setRemote [1; 2; 9] Sim.world0))))
                   (Sim.setLocal [1; 2; 9]
                      (Sim.tick (Sim.tick (Sim.setRemote [1; 2; 9] Sim.world0))))
                   (Some NoErrAlreadyUpToDate) eq_refl _ _)).
  - eapply Runs_next; [reflexivity |]. eapply Runs_next; [reflexivity |]. apply Runs_done.
  - reflexivity.
Defined.

(** ** The pulled flag *)

Section FlagFacts.
Context {E : Extern}.

(** A fresh client starts with the flag cleared. *)
Lemma NewGit_pulled (c : context_Context) (url : string) (useMemfs : bool)
    (baseDir : string) (flag : bool) (w w' : W) (g : Git) :
  NewGit c url useMemfs baseDir flag w = (Ret (Ok g), w') ->
  pulled g = false ∧ repoUrl g = url ∧ ctx g = None.
Proof.
  unfold NewGit. rewrite bind_look, bind_call.
  destruct (ioutil_ReadFile _ w).1 as [key | err]; [| done].
  destruct (ssh_ParsePrivateKey key) as [signer | err]; [| done].
  match goal with |- bind _ ?f _ = _ -> _ => set (k := f) end.
  assert (Hk : ∀ store w1, k store w1 = (Ret (Ok g), w') ->
                           pulled g = false ∧ repoUrl g = url ∧ ctx g = None).
  { intros store w1. subst k. simpl. unfold bind at 1.
    destruct (buildDotStore store flag w1) as [[[ex [st | err]] |] w2]; try done.
    destruct ex; run_M; intros [= <- <-]; done. }
  destruct useMemfs; [rewrite bind_call | rewrite bind_ret]; apply Hk.
Qed.

(** [New] stops at an invalid configuration. *)
Lemma New_invalid (c : context_Context) (config : Config) (err : error) (w : W) :
  (Valid config).2 = Some err ->
  New c config w = (Ret ((Valid config).1, Err err), w).
Proof.
  intros Hv. unfold New. destruct (Valid config) as [config' [e |]]; simpl in *; [| done].
  by injection Hv as ->.
Qed.

Lemma buildDotStore_returns_eq (store : billy_Filesystem) (flag : bool) (w : W) :
  buildDotStore store flag w =
  (Ret match (buildDotStore store flag w).1 with
       | Ret r => r
       | Panic => (false, Err ErrNotExist)
       end, (buildDotStore store flag w).2).
Proof. destruct (buildDotStore_returns store flag w) as (r & w' & ->). done. Qed.

Lemma Git_Reset_flag (b : bool) (git : Git) (w : W) :
  Git_Reset (setPulledGit b git) w =
  match Git_Reset git w with
  | (Ret (git', e), w') => (Ret (setPulledGit b git', e), w')
  | (Panic, w') => (Panic, w')
  end.
Proof.
  unfold Git_Reset. simpl. rewrite !bind_call.
  destruct (util_RemoveAll (fs git) GitDirName w).1 as [err |]; [done |].
  unfold bind at 1 5. rewrite buildDotStore_returns_eq.
  destruct (match (buildDotStore _ _ _).1 with Ret r => r | Panic => _ end)
    as [ex [st | err]]; [| done].
  run_M; done.
Qed.

Lemma GitFs_Sync_plain_flag (b : bool) (git : Git) (store : billy_Filesystem) (w : W) :
  GitFs_Sync (setPulled b {| gf_git := Some git; gf_fs := store |}) false w =
  match GitFs_Sync {| gf_git := Some git; gf_fs := store |} false w with
  | (Ret (g', e), w') => (Ret (setPulled b g', e), w')
  | (Panic, w') => (Panic, w')
  end.
Proof.
  unfold GitFs_Sync, Git_AddAll, Git_Commit, Git_Push. simpl.
  run_M; reflexivity.
Qed.

Lemma GitFs_Sync_flag (b : bool) (g : GitFs) (purge : bool) (w : W) :
  GitFs_Sync (setPulled b g) purge w =
  match GitFs_Sync g purge w with
  | (Ret (g', e), w') => (Ret (setPulled b g', e), w')
  | (Panic, w') => (Panic, w')
  end.
Proof.
  destruct g as [[git |] store].
  2: { by destruct purge. }
  destruct purge; [| apply GitFs_Sync_plain_flag].
  destruct (Git_Reset_returns git w) as (git1 & e & w1 & HR).
  pose proof (Git_Reset_flag b git w) as HRb. rewrite HR in HRb.
  change (setPulled b {| gf_git := Some git; gf_fs := store |})
    with {| gf_git := Some (setPulledGit b git); gf_fs := store |}.
  destruct e as [err |].
  - rewrite (Sync_reset_fails _ _ store _ _ _ HR), (Sync_reset_fails _ _ store _ _ _ HRb).
    reflexivity.
  - rewrite (Sync_after_reset _ _ store _ _ HR), (Sync_after_reset _ _ store _ _ HRb).
    apply (GitFs_Sync_plain_flag b git1 store w1).
Qed.

End FlagFacts.

(** C9. No operation reads the [pulled] flag: run on a handle whose flag is
    set to [b], every operation (pull, sync, reset, status and each file
    operation) gives the value, the world and the fault it gives on the
    handle as it was, and leaves the same handle with the flag still
    [b]. *)
Theorem pulled_flag_never_read `{E : Extern} (o : Op) (g : GitFs) (b : bool) (w : W) :
  runOp o (setPulled b g) w = reflag b (runOp o g w).
Proof.
  destruct o; simpl;
    [ | | | | destruct g as [og store];
              unfold GitFs_Create, GitFs_Open, GitFs_OpenFile,
                GitFs_Stat, GitFs_Rename, GitFs_Remove, GitFs_RemoveAll, GitFs_TempFile,
                GitFs_ReadDir, GitFs_MkdirAll, GitFs_Lstat, GitFs_Symlink, GitFs_Readlink,
                GitFs_Chroot, GitFs_Exist; run_M; reflexivity .. ].
  - (* pull *)
    destruct g as [[git |] store]; [| reflexivity].
    unfold GitFs_Pull, Git_Pull. run_M; reflexivity.
  - (* sync *)
    unfold bind. rewrite GitFs_Sync_flag.
    destruct (GitFs_Sync g purge w) as [[[g' e] |] w']; reflexivity.
  - (* reset *)
    destruct g as [[git |] store]; [| reflexivity].
    simpl. rewrite !bind_ret. unfold bind. rewrite Git_Reset_flag.
    destruct (Git_Reset git w) as [[[git' e] |] w']; reflexivity.
  - (* status *)
    destruct g as [[git |] store]; [| reflexivity].
    unfold GitFs_Status, Git_GetStatus. run_M; reflexivity.
Qed.

(** ** Chroot *)

(** C10. A handle returned by a successful [Chroot] has no client: [Pull]
    and [Sync] on it fault at once, before any library call, while each
    file operation on it is the store's own on the sub-rooted store. *)
Theorem Chroot_drops_client `{E : Extern} (g : GitFs) (path : string) (w w' : W)
    (sub : GitFs) :
  GitFs_Chroot g path w = (Ret (Ok sub), w') ->
  ∃ store : billy_Filesystem,
    fs_Chroot (gf_fs g) path w = (Ok store, w')
    ∧ sub = {| gf_git := None; gf_fs := store |}
    ∧ (∀ w1, GitFs_Pull sub w1 = (Panic, w1))
    ∧ (∀ purge w1, GitFs_Sync sub purge w1 = (Panic, w1))
    ∧ (∀ filename, GitFs_Create sub filename = call (fs_Create store filename))
    ∧ (∀ filename, GitFs_Open sub filename = call (fs_Open store filename))
    ∧ (∀ filename flag perm,
         GitFs_OpenFile sub filename flag perm = call (fs_OpenFile store filename flag perm))
    ∧ (∀ filename, GitFs_Stat sub filename = call (fs_Stat store filename))
    ∧ (∀ oldpath newpath,
         GitFs_Rename sub oldpath newpath = call (fs_Rename store oldpath newpath))
    ∧ (∀ filename, GitFs_Remove sub filename = call (fs_Remove store filename))
    ∧ (∀ p, GitFs_RemoveAll sub p = call (util_RemoveAll store p))
    ∧ (∀ elem, GitFs_Join sub elem = fs_Join store elem)
    ∧ (∀ dir prefix, GitFs_TempFile sub dir prefix = call (fs_TempFile store dir prefix))
    ∧ (∀ p, GitFs_ReadDir sub p = call (fs_ReadDir store p))
    ∧ (∀ filename perm,
         GitFs_MkdirAll sub filename perm = call (fs_MkdirAll store filename perm))
    ∧ (∀ filename, GitFs_Lstat sub filename = call (fs_Lstat store filename))
    ∧ (∀ target link, GitFs_Symlink sub target link = call (fs_Symlink store target link))
    ∧ (∀ link, GitFs_Readlink sub link = call (fs_Readlink store link))
    ∧ GitFs_Root sub = fs_Root store
    ∧ (∀ p w1, ∃ r, GitFs_Exist sub p w1 = (Ret r, (fs_Stat store p w1).2))
    ∧ (∀ p w1, ∃ r, GitFs_Chroot sub p w1 = (Ret r, (fs_Chroot store p w1).2)).
Proof.
  unfold GitFs_Chroot. rewrite bind_call.
  destruct (fs_Chroot (gf_fs g) path w) as [[store | err] w1] eqn:Hc; simpl; [| done].
  intros [= <- <-]. exists store. split; [done |]. split; [done |].
  split; [done |]. split; [by intros [] ? |].
  repeat (split; [done |]).
  split.
  - intros p w2. unfold GitFs_Exist. rewrite bind_call. simpl.
    run_M; eauto.
  - intros p w2. unfold GitFs_Chroot. rewrite bind_call. simpl.
    run_M; eauto.
Qed.

Lemma Chroot_drops_client_witness :
  ∃ store : string,
    fs_Chroot (gf_fs Sim.handle) "docs" Sim.world0 = (Ok store, Sim.world0)
    ∧ Sim.docsHandle = {| gf_git := None; gf_fs := store |}
    ∧ (∀ w1, GitFs_Pull Sim.docsHandle w1 = (Panic, w1))
    ∧ (∀ purge w1, GitFs_Sync Sim.docsHandle purge w1 = (Panic, w1))
    ∧ (∀ filename,
         GitFs_Create Sim.docsHandle filename = call (fs_Create store filename)).
Proof.
  destruct (Chroot_drops_client (E := Sim.engine) Sim.handle "docs" Sim.world0 Sim.world0
              Sim.docsHandle eq_refl)
    as (store & H1 & H2 & H3 & H4 & H5 & _).
  exists store. repeat split; assumption.
Defined.

(** * Further properties of the code *)

(** ** The walk with any callback *)

Lemma runCallbacks_app {S : Type} (cb : string -> S -> S * option error)
    (l1 l2 : list string) (s : S) :
  runCallbacks cb (l1 ++ l2) s =
  match runCallbacks cb l1 s with
  | (s', Some err) => (s', Some err)
  | (s', None) => runCallbacks cb l2 s'
  end.
Proof.
  revert s. induction l1 as [| p l1 IH]; intros s; simpl; [done |].
  destruct (cb p s) as [s' [err |]]; [done | apply IH].
Qed.

Lemma walkError_cons (dir : string) fi sub rest :
  walkError (ReadDirOk ((fi, sub) :: rest)) dir =
  if decide (Name fi = GitDirName) then walkError (ReadDirOk rest) dir
  else if IsDir fi then
    match walkError sub (filepath_Join dir (Name fi)) with
    | Some err => Some err
    | None => walkError (ReadDirOk rest) dir
    end
  else walkError (ReadDirOk rest) dir.
Proof.
  unfold walkError at 1. rewrite traverseDir_unfold, traverseFiles_cons.
  destruct (decide (Name fi = GitDirName)); [done |].
  destruct (IsDir fi).
  - rewrite (recordPath_shift sub _ []).
    destruct (walkError sub _); simpl; [done |].
    rewrite (recordPath_shift_files dir rest (callbackPaths sub _)). done.
  - rewrite recordPath_eq, (recordPath_shift_files dir rest ([] ++ _)%list). done.
Qed.

(** X1. Whatever the callback, the walk is the callback run over the
    recorded paths in order: it stops with the callback's first error, and
    when the callback never fails it ends with the first read error of the
    walk, if there is one. *)
Theorem traverseDir_runs_callbacks {S : Type} (cb : string -> S -> S * option error)
    (t : DirTree) (dir : string) (s : S) :
  traverseDir t dir cb s =
  match runCallbacks cb (callbackPaths t dir) s with
  | (s', Some err) => (s', Some err)
  | (s', None) => (s', walkError t dir)
  end.
Proof.
  revert dir s.
  induction t as [files IH | e] using DirTree_nested_ind; intros dir s; [| done].
  revert s. induction files as [| [fi sub] rest IHrest]; intros s; [done |].
  inversion IH as [| ? ? IHsub IHfiles]; subst. simpl in IHsub.
  specialize (IHrest IHfiles).
  rewrite callbackPaths_cons, walkError_cons.
  rewrite traverseDir_unfold, traverseFiles_cons.
  destruct (decide (Name fi = GitDirName)); [exact (IHrest s) |].
  destruct (IsDir fi).
  - rewrite IHsub, runCallbacks_app.
    destruct (runCallbacks cb (callbackPaths sub _) s) as [s' [err |]]; [done |].
    destruct (walkError sub _); [done |]. exact (IHrest s').
  - simpl. destruct (cb _ s) as [s' [err |]]; [done | exact (IHrest s')].
Qed.

(** ** What the walk does not look at *)

Lemma pruneMetadata_ok (files : list (FileInfo * DirTree)) :
  pruneMetadata (ReadDirOk files) = ReadDirOk (pruneFiles files).
Proof. reflexivity. Qed.

Lemma pruneFiles_cons fi sub rest :
  pruneFiles ((fi, sub) :: rest) =
  if decide (Name fi = GitDirName) then pruneFiles rest
  else (fi, if IsDir fi then pruneMetadata sub else ReadDirErr ErrNotExist)
       :: pruneFiles rest.
Proof. reflexivity. Qed.

Lemma pruneMetadata_walk {S : Type} (cb : string -> S -> S * option error)
    (t : DirTree) (dir : string) (s : S) :
  traverseDir (pruneMetadata t) dir cb s = traverseDir t dir cb s
  ∧ allNames notMetadata (pruneMetadata t) = true.
Proof.
  revert dir s.
  induction t as [files IH | e] using DirTree_nested_ind; intros dir s; [| done].
  rewrite pruneMetadata_ok, !traverseDir_unfold.
  change (allNames notMetadata (ReadDirOk (pruneFiles files)))
    with (forallb (fun p : FileInfo * DirTree =>
                     notMetadata (Name p.1) && allNames notMetadata p.2)
            (pruneFiles files)).
  revert s. induction files as [| [fi sub] rest IHrest]; intros s; [done |].
  inversion IH as [| ? ? IHsub IHfiles]; subst. simpl in IHsub.
  specialize (IHrest IHfiles).
  rewrite pruneFiles_cons, (traverseFiles_cons dir cb fi sub rest).
  destruct (decide (Name fi = GitDirName)) as [| Hne]; [apply IHrest |].
  rewrite traverseFiles_cons. rewrite decide_False by done. simpl.
  assert (Hname : notMetadata (Name fi) = true).
  { unfold notMetadata. by rewrite bool_decide_eq_false_2. }
  rewrite Hname. simpl.
  destruct (IsDir fi).
  - destruct (IHsub (filepath_Join dir (Name fi)) s) as [-> ->]. simpl.
    destruct (traverseDir sub _ cb s) as [s' [err |]].
    + split; [done | apply (IHrest s)].
    + apply IHrest.
  - simpl. destruct (cb _ s) as [s' [err |]].
    + split; [done | apply (IHrest s)].
    + apply IHrest.
Qed.

(** X2. The walk is blind to the metadata entries and to whatever lies
    below an entry that is not a directory: on the tree with those erased,
    which holds no entry of the reserved name at any level, every callback
    gives the same walk. *)
Theorem traverseDir_pruneMetadata {S : Type} (cb : string -> S -> S * option error)
    (t : DirTree) (dir : string) (s : S) :
  traverseDir (pruneMetadata t) dir cb s = traverseDir t dir cb s
  ∧ allNames notMetadata (pruneMetadata t) = true.
Proof. apply pruneMetadata_walk. Qed.

(** X3. Entries are visited in the order of the listing, and a walk over
    two listings in a row is the walk over the first followed, unless a
    read error ended it, by the walk over the second. *)
Theorem callbackPaths_app (dir : string) (l1 l2 : list (FileInfo * DirTree)) :
  callbackPaths (ReadDirOk (l1 ++ l2)) dir =
    (callbackPaths (ReadDirOk l1) dir ++
     match walkError (ReadDirOk l1) dir with
     | Some _ => []
     | None => callbackPaths (ReadDirOk l2) dir
     end)%list
  ∧ walkError (ReadDirOk (l1 ++ l2)) dir =
    match walkError (ReadDirOk l1) dir with
    | Some err => Some err
    | None => walkError (ReadDirOk l2) dir
    end.
Proof.
  induction l1 as [| [fi sub] rest [IHp IHe]]; [done |].
  change (((fi, sub) :: rest) ++ l2)%list with ((fi, sub) :: (rest ++ l2))%list.
  rewrite !callbackPaths_cons, !walkError_cons, IHp, IHe.
  destruct (decide (Name fi = GitDirName)); [done |].
  destruct (IsDir fi); [| done].
  destruct (walkError sub _); simpl; [by rewrite !app_nil_r |]. by rewrite app_assoc.
Qed.

(** ** The shape of the reported paths *)

Lemma splitPath_head_slash (s : string) : splitPath (String "/" s) = "" :: splitPath s.
Proof. reflexivity. Qed.

Lemma entryName_spec (name : string) :
  entryName name = true -> noSlash name = true ∧ name ≠ "".
Proof.
  unfold entryName. intros [Hp Hn]%andb_true_iff. split; [done |].
  apply negb_true_iff, bool_decide_eq_false in Hn. done.
Qed.

Lemma join_relative (d name : string) :
  underRoot (fun q => q = "" ∨ "" ∉ splitPath q) d -> name ≠ GitDirName ->
  entryName name = true ->
  underRoot (fun q => q = "" ∨ "" ∉ splitPath q) (filepath_Join d name)
  ∧ "" ∉ splitPath (slice_from_1 (filepath_Join d name)).
Proof.
  intros (q & -> & Hq) _ [Hplain Hne]%entryName_spec.
  assert (Hgoal : ∃ q', filepath_Join (String "/" q) name = String "/" q'
                         ∧ "" ∉ splitPath q').
  { destruct (filepath_Join_cases (String "/" q) name)
      as [[? _] | [(_ & _ & ->) | (_ & Hd & ->)]]; [done | |].
    - exists name. split; [done |]. rewrite (splitPath_noSlash name Hplain).
      intros Hin. apply list_elem_of_singleton in Hin. done.
    - exists (q +:+ String "/" name). split; [done |].
      destruct Hq as [-> | Hq]; [done |].
      rewrite splitPath_app, (splitPath_noSlash name Hplain).
      intros Hin. apply elem_of_app in Hin as [Hin | Hin]; [done |].
      apply list_elem_of_singleton in Hin. done. }
  destruct Hgoal as (q' & Heq & Hq'). rewrite Heq.
  split; [exists q'; split; [done | by right] | done].
Qed.

(** X4. When every entry name is a real one (not empty, no separator
    inside), each path handed to the callback from the root is relative and
    clean: it is not empty, does not start with the separator and has no
    empty component. *)
Theorem callbackPaths_relative (t : DirTree) (p : string) :
  allNames entryName t = true ->
  p ∈ callbackPaths t "/" ->
  ("" ∉ splitPath p) ∧ p ≠ "" ∧ (∀ rest, p ≠ String "/" rest).
Proof.
  intros Hnames Hin.
  assert (Hcomp : "" ∉ splitPath p).
  { apply (callbackPaths_closed entryName
             (underRoot (fun q => q = "" ∨ "" ∉ splitPath q))
             (fun p => "" ∉ splitPath p))
      with (t := t) (d := "/"); try done.
    - intros d name HQ Hne Hok. by apply join_relative.
    - exists "". split; [done | by left]. }
  split; [done |]. split.
  - intros ->. apply Hcomp. simpl. by left.
  - intros rest ->. apply Hcomp. rewrite splitPath_head_slash. by left.
Qed.

Lemma callbackPaths_relative_witness :
  ("" ∉ splitPath "docs/b.txt") ∧ "docs/b.txt" ≠ ""
  ∧ (∀ rest, "docs/b.txt" ≠ String "/" rest).
Proof.
  apply (callbackPaths_relative Sim.files0 "docs/b.txt").
  - reflexivity.
  - apply (bool_decide_unpack _). vm_compute. exact I.
Defined.

(** ** More of status reconciliation *)

Lemma decisionTable_changed (entry : option FileStatus) (c : StatusCode) :
  decisionTable entry = Some c ->
  c ∈ changeCodes
  ∧ ∃ st, entry = Some st
          ∧ (Staging st ≠ git_Unmodified ∨ Worktree st ≠ git_Unmodified).
Proof.
  destruct entry as [[st wt ex] |]; [| done]. simpl. intros Hc.
  split.
  - destruct st, wt; simpl in Hc; try done; injection Hc as <-;
      apply (bool_decide_unpack _); vm_compute; exact I.
  - eexists. split; [done |]. simpl.
    destruct st, wt; simpl in Hc; try done; (by left) || (by right).
Qed.

(** X5. The status map reports a path only if the walk found it in the
    store and the raw status has an entry for it with a side that is not
    Unmodified. So a file the engine reports (as deleted, say) but that is
    no longer in the store is not in the map, nor is a file in the store
    the engine has no entry for. *)
Theorem GetStatus_reports_only_present `{E : Extern} (g : Git) (w w' : W)
    (s : gmap string FileStatus) (files : gmap string StatusCode)
    (path : string) (c : StatusCode) :
  wt_Status (wt g) w = Ok s ->
  Git_GetStatus g w = (Ret (Ok files), w') ->
  files !! path = Some c ->
  path ∈ callbackPaths (fs_tree (fs g) w) "/"
  ∧ ∃ st, s !! path = Some st
          ∧ (Staging st ≠ git_Unmodified ∨ Worktree st ≠ git_Unmodified).
Proof.
  intros Hs Hget Hc.
  rewrite (Git_GetStatus_lookup g w w' s files path Hs Hget) in Hc.
  destruct (decide (path ∈ _)) as [Hin |]; [| done].
  split; [done |]. by destruct (decisionTable_changed _ _ Hc).
Qed.

Lemma GetStatus_reports_only_present_witness :
  "a.txt" ∈ callbackPaths Sim.files0 "/"
  ∧ ∃ st, Sim.raw0 !! "a.txt" = Some st
          ∧ (Staging st ≠ git_Unmodified ∨ Worktree st ≠ git_Unmodified).
Proof.
  refine (GetStatus_reports_only_present (E := Sim.engine) Sim.client Sim.world0 Sim.world0
            Sim.raw0 (<["a.txt" := Modified]> (<["docs/b.txt" := Inconsistent]> ∅))
            "a.txt" Modified _ _ _).
  - reflexivity.
  - vm_compute. reflexivity.
  - vm_compute. reflexivity.
Defined.

(** X6. Every code in a status map is one of the declared constants other
    than [Unmodified]; [Unmodified] itself is never recorded. *)
Theorem GetStatus_codes `{E : Extern} (g : Git) (w w' : W)
    (files : gmap string StatusCode) (path : string) (c : StatusCode) :
  Git_GetStatus g w = (Ret (Ok files), w') ->
  files !! path = Some c ->
  c ∈ changeCodes ∧ c ≠ Unmodified.
Proof.
  intros Hget Hc. rewrite Git_GetStatus_eq in Hget.
  destruct (wt_Status (wt g) w) as [s | err]; [| done].
  destruct (walkError _ _); [done |].
  injection Hget as <- _. rewrite foldl_statusStep, lookup_empty in Hc.
  destruct (decide (path ∈ _)); [| done].
  assert (Hd : decisionTable (s !! path) = Some c) by (by destruct (decisionTable _)).
  destruct (decisionTable_changed _ _ Hd) as [Hin _]. split; [done |].
  intros ->. apply (bool_decide_pack _) in Hin. vm_compute in Hin. done.
Qed.

Lemma GetStatus_codes_witness : Inconsistent ∈ changeCodes ∧ Inconsistent ≠ Unmodified.
Proof.
  refine (GetStatus_codes (E := Sim.engine) Sim.client Sim.world0 Sim.world0
            (<["a.txt" := Modified]> (<["docs/b.txt" := Inconsistent]> ∅))
            "docs/b.txt" Inconsistent _ _).
  - vm_compute. reflexivity.
  - vm_compute. reflexivity.
Defined.

(** X7. The decision does not tell the staged side from the worktree side:
    with the two sides of a path's raw entry exchanged the closure writes
    the same thing. *)
Theorem statusStep_symmetric (s : gmap string FileStatus) (path : string)
    (files : gmap string StatusCode) :
  statusStep (swapSides <$> s) path files = statusStep s path files.
Proof.
  rewrite !statusStep_table, lookup_fmap.
  destruct (s !! path) as [[st wt ex] |]; [| done].
  destruct st, wt; reflexivity.
Qed.

(** ** More of the configuration *)

Lemma trimWhile_fixed (drop : list nat -> option (list nat)) (n : nat) (s : list nat) :
  drop s = None -> trimWhile drop n s = s.
Proof. intros H. destruct n; simpl; [done | by rewrite H]. Qed.

Lemma dropLeadingSpace_suffix (s r : list nat) :
  dropLeadingSpace s = Some r -> ∃ k, s = (k ++ r)%list ∧ k ≠ [].
Proof.
  destruct s as [| b0 [| b1 [| b2 s]]]; simpl; try done.
  - destruct (asciiSpace b0); [| done]. intros [= <-]. by exists [b0].
  - destruct (asciiSpace b0); [intros [= <-]; by exists [b0] |].
    destruct (space2 b0 b1); [| done]. intros [= <-]. by exists [b0; b1].
  - destruct (asciiSpace b0); [intros [= <-]; by exists [b0] |].
    destruct (space2 b0 b1); [intros [= <-]; by exists [b0; b1] |].
    destruct (space3 b0 b1 b2); [| done]. intros [= <-]. by exists [b0; b1; b2].
Qed.

Lemma dropTrailingSpace_suffix (s r : list nat) :
  dropTrailingSpace s = Some r -> ∃ k, s = (k ++ r)%list ∧ k ≠ [].
Proof.
  destruct s as [| b0 [| b1 [| b2 s]]]; simpl; try done.
  - destruct (asciiSpace b0); [| done]. intros [= <-]. by exists [b0].
  - destruct (asciiSpace b0); [intros [= <-]; by exists [b0] |].
    destruct (space2 b1 b0); [| done]. intros [= <-]. by exists [b0; b1].
  - destruct (asciiSpace b0); [intros [= <-]; by exists [b0] |].
    destruct (space2 b1 b0); [intros [= <-]; by exists [b0; b1] |].
    destruct (space3 b2 b1 b0); [| done]. intros [= <-]. by exists [b0; b1; b2].
Qed.

Section Trimming.
Variable drop : list nat -> option (list nat).
Hypothesis drop_suffix : ∀ s r, drop s = Some r -> ∃ k, s = (k ++ r)%list ∧ k ≠ [].

Lemma trimWhile_done (n : nat) :
  ∀ s, (length s <= n)%nat -> drop (trimWhile drop n s) = None.
Proof.
  induction n as [| n IH]; intros s Hlen; simpl.
  - destruct s; [| simpl in Hlen; lia].
    destruct (drop []) as [r |] eqn:Hd; [| done].
    destruct (drop_suffix _ _ Hd) as (k & Hk & Hne). by destruct k.
  - destruct (drop s) as [r |] eqn:Hd; [| done].
    apply IH. destruct (drop_suffix _ _ Hd) as (k & -> & Hne).
    rewrite length_app in Hlen. destruct k; [done |]. simpl in Hlen. lia.
Qed.

Lemma trimWhile_suffix (n : nat) :
  ∀ s, ∃ k, s = (k ++ trimWhile drop n s)%list.
Proof.
  induction n as [| n IH]; intros s; simpl; [by exists [] |].
  destruct (drop s) as [r |] eqn:Hd; [| by exists []].
  destruct (drop_suffix _ _ Hd) as (k & -> & _).
  destruct (IH r) as [k' Hk']. exists (k ++ k')%list.
  by rewrite <- app_assoc, <- Hk'.
Qed.

End Trimming.

Lemma dropLeadingSpace_prefix (p q : list nat) :
  dropLeadingSpace (p ++ q) = None -> dropLeadingSpace p = None.
Proof.
  destruct p as [| b0 [| b1 [| b2 p]]]; simpl; try done.
  - destruct (asciiSpace b0); [done |]. done.
  - destruct (asciiSpace b0); [done |]. destruct (space2 b0 b1); done.
  - destruct (asciiSpace b0); [done |]. destruct (space2 b0 b1); [done |].
    destruct (space3 b0 b1 b2); done.
Qed.

Lemma bytes_of_string_of (bs : list nat) :
  Forall (fun b => (b < 256)%nat) bs -> bytes_of (string_of bs) = bs.
Proof.
  unfold bytes_of, string_of. rewrite list_ascii_of_string_of_list_ascii.
  induction 1 as [| b bs Hb _ IH]; [done |].
  rewrite !fmap_cons, nat_ascii_embedding by done. by rewrite IH.
Qed.

Lemma bytes_of_bounded (s : string) : Forall (fun b => (b < 256)%nat) (bytes_of s).
Proof.
  unfold bytes_of. induction (list_ascii_of_string s) as [| c l IH]; simpl; constructor;
    [apply nat_ascii_bounded | done].
Qed.

(** The bytes [strings.TrimSpace] keeps. *)
Lemma strings_TrimSpace_bytes (s : string) :
  ∃ kept,
    strings_TrimSpace s = string_of kept
    ∧ Forall (fun b => (b < 256)%nat) kept
    ∧ dropLeadingSpace kept = None
    ∧ dropTrailingSpace (reverse kept) = None.
Proof.
  unfold strings_TrimSpace.
  set (bs := bytes_of s).
  set (left := trimWhile dropLeadingSpace (length bs) bs).
  set (right := trimWhile dropTrailingSpace (length left) (reverse left)).
  exists (reverse right).
  assert (Hleft : dropLeadingSpace left = None)
    by (apply (trimWhile_done _ dropLeadingSpace_suffix); done).
  assert (Hright : dropTrailingSpace right = None).
  { apply (trimWhile_done _ dropTrailingSpace_suffix). by rewrite length_reverse. }
  destruct (trimWhile_suffix _ dropLeadingSpace_suffix (length bs) bs) as [k1 Hk1].
  destruct (trimWhile_suffix _ dropTrailingSpace_suffix (length left) (reverse left))
    as [k2 Hk2].
  fold left in Hk1. fold right in Hk2.
  assert (Hpre : left = (reverse right ++ reverse k2)%list).
  { rewrite <- reverse_app, <- Hk2. by rewrite reverse_involutive. }
  split; [done |]. split; [| split].
  - pose proof (bytes_of_bounded s) as Hb. fold bs in Hb. rewrite Hk1 in Hb.
    apply Forall_app in Hb as [_ Hb]. rewrite Hpre in Hb.
    by apply Forall_app in Hb as [Hb _].
  - apply (dropLeadingSpace_prefix _ (reverse k2)). by rewrite <- Hpre.
  - by rewrite reverse_involutive.
Qed.

Lemma strings_TrimSpace_idempotent (s : string) :
  strings_TrimSpace (strings_TrimSpace s) = strings_TrimSpace s.
Proof.
  destruct (strings_TrimSpace_bytes s) as (kept & -> & Hb & Hl & Hr).
  unfold strings_TrimSpace at 1. rewrite (bytes_of_string_of kept Hb).
  rewrite (trimWhile_fixed _ _ kept Hl), (trimWhile_fixed _ _ (reverse kept) Hr).
  by rewrite reverse_involutive.
Qed.

Lemma strings_TrimSpace_blank (s : string) :
  blank s = true -> strings_TrimSpace s = "".
Proof.
  unfold blank, strings_TrimSpace. intros Hb.
  assert (Hleft : ∀ n bs, forallb asciiSpace bs = true -> (length bs <= n)%nat ->
                          trimWhile dropLeadingSpace n bs = []).
  { induction n as [| n IH]; intros bs Hall Hlen; simpl.
    - destruct bs; [done | simpl in Hlen; lia].
    - destruct bs as [| b bs]; [done |]. simpl in Hall.
      apply andb_true_iff in Hall as [Hsp Hall]. simpl. rewrite Hsp.
      apply IH; [done | simpl in Hlen; lia]. }
  rewrite (Hleft _ _ Hb) by done. reflexivity.
Qed.

(** The error of [Valid], from the trimmed fields. *)
Lemma Valid_error (c : Config) :
  (Valid c).2 =
  if decide (strings_TrimSpace (cfg_repoUrl c) = "") then Some (ErrNew "empty repo url")
  else if cfg_useMemFs c && bool_decide (strings_TrimSpace (cfg_osFsBaseDir c) ≠ "")
  then Some (ErrNew "memFs and osFs base dir are mutually exclusive")
  else if negb (cfg_useMemFs c) && bool_decide (strings_TrimSpace (cfg_osFsBaseDir c) = "")
  then Some (ErrNew "osFs base dir is not provided")
  else None.
Proof.
  unfold Valid. simpl.
  destruct (decide (strings_TrimSpace (cfg_repoUrl c) = "")); [done |]. simpl.
  destruct (_ && _); [done |]. by destruct (_ && _).
Qed.

(** X8. A URL made of spaces, tabs and line breaks only is refused as an
    empty one, whatever the other fields are, and the base directory is
    then left as it was given. *)
Theorem Valid_rejects_blank_url (c : Config) :
  blank (cfg_repoUrl c) = true ->
  Valid c = (SetUrl c "", Some (ErrNew "empty repo url")).
Proof.
  intros Hb. unfold Valid. simpl.
  rewrite (strings_TrimSpace_blank _ Hb). reflexivity.
Qed.

Lemma Valid_rejects_blank_url_witness :
  Valid (UseOsFs (SetUrl NewConfig (String (ascii_of_nat 9) "  ")) " /data " true) =
  (UseOsFs (SetUrl NewConfig "") " /data " true, Some (ErrNew "empty repo url")).
Proof.
  apply (Valid_rejects_blank_url
           (UseOsFs (SetUrl NewConfig (String (ascii_of_nat 9) "  ")) " /data " true)).
  reflexivity.
Defined.

(** X9. Validation normalises once and for all: validating the
    configuration [Valid] leaves behind gives the same verdict and changes
    nothing more, and [Valid] never touches the store kind or the
    open-existing flag. *)
Theorem Valid_idempotent (c : Config) :
  Valid (Valid c).1 = Valid c
  ∧ cfg_useMemFs (Valid c).1 = cfg_useMemFs c
  ∧ cfg_openExisting (Valid c).1 = cfg_openExisting c.
Proof.
  destruct c as [url memFs baseDir openExisting]. unfold Valid. simpl.
  destruct (decide (strings_TrimSpace url = "")) as [Hu | Hu]; simpl.
  { rewrite Hu. change (strings_TrimSpace "") with "". simpl. done. }
  destruct memFs; simpl.
  - destruct (bool_decide (strings_TrimSpace baseDir ≠ "")) eqn:Hb; simpl;
      rewrite !strings_TrimSpace_idempotent, decide_False by done; simpl;
      by rewrite Hb.
  - destruct (bool_decide (strings_TrimSpace baseDir = "")) eqn:Hb; simpl;
      rewrite !strings_TrimSpace_idempotent, decide_False by done; simpl;
      by rewrite Hb.
Qed.

(** X10. A configuration finished with [UseMemFs] is valid exactly when its
    URL is not blank after trimming, whatever store was chosen before, and
    it never opens an existing repository; one finished with [UseOsFs] is
    valid exactly when neither the URL nor the base directory is. *)
Theorem builders_valid (c : Config) (url baseDir : string) (openExisting : bool) :
  ((Valid (UseMemFs (SetUrl c url))).2 = None ↔ strings_TrimSpace url ≠ "")
  ∧ ((Valid (SetUrl (UseMemFs c) url)).2 = None ↔ strings_TrimSpace url ≠ "")
  ∧ cfg_openExisting (Valid (UseMemFs (SetUrl c url))).1 = false
  ∧ ((Valid (UseOsFs (SetUrl c url) baseDir openExisting)).2 = None ↔
       strings_TrimSpace url ≠ "" ∧ strings_TrimSpace baseDir ≠ "").
Proof.
  split; [| split; [| split]].
  - rewrite Valid_error. simpl.
    destruct (decide (strings_TrimSpace url = "")); [by split |].
    change (strings_TrimSpace "") with "". simpl. by split.
  - rewrite Valid_error. simpl.
    destruct (decide (strings_TrimSpace url = "")); [by split |].
    change (strings_TrimSpace "") with "". simpl. by split.
  - unfold Valid. simpl. by destruct (decide _).
  - rewrite Valid_error. simpl.
    destruct (decide (strings_TrimSpace url = "")); [split; [done | by intros []] |].
    destruct (decide (strings_TrimSpace baseDir = "")) as [Hb | Hb].
    + rewrite bool_decide_eq_true_2 by done. split; [done | by intros []].
    + rewrite bool_decide_eq_false_2 by done. by split.
Qed.

(** ** More of the client *)

Section ClientFacts.
Context {E : Extern}.

Lemma sameButRepo_refl (g : Git) : sameButRepo g g.
Proof. by repeat split. Qed.

Lemma sameButRepo_trans (g1 g2 g3 : Git) :
  sameButRepo g1 g2 -> sameButRepo g2 g3 -> sameButRepo g1 g3.
Proof.
  intros (? & ? & ? & ? & ?) (? & ? & ? & ? & ?). repeat split; congruence.
Qed.

Lemma Git_Reset_keeps (g g' : Git) (e : option error) (w w' : W) :
  Git_Reset g w = (Ret (g', e), w') ->
  sameButRepo g g' ∧ (e ≠ None -> g' = g).
Proof.
  unfold Git_Reset. rewrite bind_call.
  destruct (util_RemoveAll (fs g) GitDirName w).1 as [err |].
  { rewrite ret_eq. intros [= <- <- <-]. split; [apply sameButRepo_refl | done]. }
  unfold bind at 1.
  destruct (buildDotStore_returns (fs g) true (util_RemoveAll (fs g) GitDirName w).2)
    as ([ex [st | err]] & w2 & ->).
  2: { rewrite ret_eq. intros [= <- <- <-]. split; [apply sameButRepo_refl | done]. }
  run_M; intros [= <- <- <-]; (split; [by repeat split | done]).
Qed.

Lemma runStep_keeps (s : Step) (g g' : Git) (e : option error) (w w' : W) :
  runStep s g w = (Ret (g', e), w') ->
  sameButRepo g g' ∧ (s ≠ StepReset -> g' = g) ∧ (e ≠ None -> g' = g).
Proof.
  destruct s; simpl.
  - intros [? ?]%Git_Reset_keeps. done.
  - unfold Git_AddAll. run_M. intros [= <- <- <-].
    split; [apply sameButRepo_refl | done].
  - unfold Git_Commit. run_M. intros [= <- <- <-].
    split; [apply sameButRepo_refl | done].
  - unfold Git_Push. run_M. intros [= <- <- <-].
    split; [apply sameButRepo_refl | done].
Qed.

Lemma Runs_keeps plan g w ran g' r w' :
  Runs plan g w ran g' r w' ->
  sameButRepo g g' ∧ (StepReset ∉ plan -> g' = g).
Proof.
  induction 1 as [git w | s rest git w git' err w' Hs
                  | s rest git w git' w' ran git'' r w'' Hs Hrest IH].
  - split; [apply sameButRepo_refl | done].
  - destruct (runStep_keeps _ _ _ _ _ _ Hs) as (Hk & _ & Hfail).
    split; [done |]. intros _. by apply Hfail.
  - destruct (runStep_keeps _ _ _ _ _ _ Hs) as (Hk & Hplain & _).
    destruct IH as [Hk' Hplain'].
    split; [by eapply sameButRepo_trans |].
    intros Hnin. rewrite Hplain', Hplain; [done | |].
    + intros ->. apply Hnin. by left.
    + intros Hin. apply Hnin. by right.
Qed.

End ClientFacts.

(** X11. [Reset] touches only the repository and its worktree: the store,
    the URL, the credential and the flag of the client stay, and when
    [Reset] fails the client is exactly as it was (the assignments come
    after the last step that can fail). *)
Theorem Git_Reset_frame `{E : Extern} (g g' : Git) (e : option error) (w w' : W) :
  Git_Reset g w = (Ret (g', e), w') ->
  fs g' = fs g ∧ repoUrl g' = repoUrl g ∧ auth g' = auth g ∧ pulled g' = pulled g
  ∧ (e ≠ None -> g' = g).
Proof.
  intros [(? & ? & ? & ? & ?) Hfail]%Git_Reset_keeps. done.
Qed.

Lemma Git_Reset_frame_witness :
  fs Sim.client = fs Sim.client ∧ repoUrl Sim.client = repoUrl Sim.client
  ∧ auth Sim.client = auth Sim.client ∧ pulled Sim.client = pulled Sim.client
  ∧ (@None error ≠ None -> Sim.client = Sim.client).
Proof.
  exact (Git_Reset_frame (E := Sim.engine) Sim.client Sim.client None Sim.world0
           (Sim.setDotgit (Some Sim.dotDir) (Sim.setLocal [] (Sim.setDotgit None Sim.world0)))
           eq_refl).
Defined.

(** X12. A sync never changes the store of the handle; without purge it
    leaves the handle as it is; with purge the client keeps its store, URL,
    credential and flag, only its repository and worktree being renewed. *)
Theorem GitFs_Sync_frame `{E : Extern} (g g' : GitFs) (purge : bool)
    (e : option error) (w w' : W) :
  GitFs_Sync g purge w = (Ret (g', e), w') ->
  gf_fs g' = gf_fs g
  ∧ (purge = false -> g' = g)
  ∧ ∃ git git', gf_git g = Some git ∧ gf_git g' = Some git'
                ∧ fs git' = fs git ∧ repoUrl git' = repoUrl git
                ∧ auth git' = auth git ∧ pulled git' = pulled git.
Proof.
  destruct g as [[git |] store].
  2: { by destruct purge. }
  destruct (Sync_runs git store purge w) as (ran & git' & r & w0 & Hruns & ->).
  intros [= <- <- <-].
  destruct (Runs_keeps _ _ _ _ _ _ _ Hruns) as [(? & ? & ? & ? & ?) Hplain].
  split; [done |]. split.
  - intros ->. rewrite Hplain; [done |].
    intros Hin. apply (bool_decide_pack _) in Hin. vm_compute in Hin. done.
  - by exists git, git'.
Qed.

Lemma GitFs_Sync_frame_witness :
  gf_fs Sim.handle = gf_fs Sim.handle
  ∧ (true = false -> Sim.handle = Sim.handle)
  ∧ ∃ git git', gf_git Sim.handle = Some git ∧ gf_git Sim.handle = Some git'
                ∧ fs git' = fs git ∧ repoUrl git' = repoUrl git
                ∧ auth git' = auth git ∧ pulled git' = pulled git.
Proof.
  refine (GitFs_Sync_frame (E := Sim.engine) Sim.handle Sim.handle true None Sim.world0
            (GitFs_Sync Sim.handle true Sim.world0).2 _).
  vm_compute. reflexivity.
Defined.

(** X13. An operation faults exactly when it goes through the client
    (pull, sync, reset, status) and the handle has none; it then has
    changed nothing. On a handle with a client no operation faults, and the
    handle it leaves still has a client. *)
Theorem runOp_faults_iff `{E : Extern} (o : Op) (g : GitFs) (w : W) :
  ((runOp o g w).1 = Panic ↔ gf_git g = None ∧ usesClient o = true)
  ∧ ((runOp o g w).1 = Panic -> (runOp o g w).2 = w)
  ∧ (∀ v g', (runOp o g w).1 = Ret (v, g') -> is_Some (gf_git g) -> is_Some (gf_git g')).
Proof.
  destruct o; simpl;
    [ | | | | destruct g as [og store];
              unfold GitFs_Create, GitFs_Open, GitFs_OpenFile,
                GitFs_Stat, GitFs_Rename, GitFs_Remove, GitFs_RemoveAll, GitFs_TempFile,
                GitFs_ReadDir, GitFs_MkdirAll, GitFs_Lstat, GitFs_Symlink, GitFs_Readlink,
                GitFs_Chroot, GitFs_Exist; run_M;
              (split; [split; [done | by intros [_ ?]] |]);
              (split; [done |]); by intros ? ? [= _ <-] .. ].
  - (* pull *)
    destruct g as [[git |] store]; [| by repeat split].
    unfold GitFs_Pull, Git_Pull. run_M;
      (split; [split; [done | by intros [? _]] |]); (split; [done |]);
      by intros ? ? [= _ <-].
  - (* sync *)
    destruct g as [[git |] store].
    2: { destruct purge; by repeat split. }
    unfold bind.
    destruct (Sync_runs git store purge w) as (ran & git' & r & w0 & _ & ->). simpl.
    split; [split; [done | by intros [? _]] |]. split; [done |].
    by intros ? ? [= _ <-].
  - (* reset *)
    destruct g as [[git |] store]; [| by repeat split].
    simpl. rewrite !bind_ret. unfold bind.
    destruct (Git_Reset_returns git w) as (git' & e & w0 & ->). simpl.
    split; [split; [done | by intros [? _]] |]. split; [done |].
    by intros ? ? [= _ <-].
  - (* status *)
    destruct g as [[git |] store]; [| by repeat split].
    unfold GitFs_Status. simpl. unfold bind. simpl.
    rewrite Git_GetStatus_eq. simpl.
    split; [split; [done | by intros [? _]] |]. split; [done |].
    by intros ? ? [= _ <-].
Qed.

(** ** More of the bootstrap *)

Section BootstrapMore.
Context {E : Extern}.

Lemma os_IsNotExist_true (e : error) : os_IsNotExist (Some e) = true -> e = ErrNotExist.
Proof. by destruct e. Qed.

Lemma chrootDot_exists (store : billy_Filesystem) (ex ex' : bool) r (w w' : W) :
  chrootDot store ex w = (Ret (ex', r), w') -> ex' = ex.
Proof. unfold chrootDot. run_M; by intros [= <- <- <-]. Qed.

(** When [buildDotStore] gives a storage, the metadata path was absent, or
    it was a directory and the guard was off. *)
Lemma buildDotStore_storage (store : billy_Filesystem) (flag ex : bool)
    (st : filesystem_Storage) (w w3 : W) :
  buildDotStore store flag w = (Ret (ex, Ok st), w3) ->
  ∃ w2,
    (fs_Stat store GitDirName w = (Err ErrNotExist, w2) ∧ ex = false)
    ∨ (∃ fi, fs_Stat store GitDirName w = (Ok fi, w2)
             ∧ IsDir fi = true ∧ flag = false ∧ ex = true).
Proof.
  unfold buildDotStore. rewrite bind_call.
  destruct (fs_Stat store GitDirName w) as [[fi | e] w2] eqn:Hs; simpl.
  - destruct flag; simpl; [by rewrite ?ret_eq |].
    destruct (IsDir fi) eqn:Hd; simpl; [| by rewrite ?ret_eq].
    intros ->%chrootDot_exists. exists w2. right. by exists fi.
  - destruct e; simpl; try (by rewrite ?ret_eq).
    intros ->%chrootDot_exists. exists w2. by left.
Qed.

(** What a successful [NewGit] has done and returns. *)
Lemma NewGit_success (c : context_Context) (url : string) (useMemfs : bool)
    (baseDir : string) (flag : bool) (w0 w' : W) (g : Git) :
  NewGit c url useMemfs baseDir flag w0 = (Ret (Ok g), w') ->
  (pulled g = false ∧ repoUrl g = url ∧ ctx g = None ∧ User (auth g) = "git"
   ∧ (useMemfs = false -> fs g = osfs_New baseDir))
  ∧ ∃ w1 w2 w3 w4 dotStore,
      (fs_Stat (fs g) GitDirName w1 = (Err ErrNotExist, w2)
       ∧ git_CloneContext c dotStore (fs g) (mkCloneOptions url (auth g)) w3
         = (Ok (repo g), w4))
      ∨ (∃ fi, fs_Stat (fs g) GitDirName w1 = (Ok fi, w2)
               ∧ IsDir fi = true ∧ flag = false
               ∧ git_Open dotStore (fs g) w3 = (Ok (repo g), w4)).
Proof.
  unfold NewGit. rewrite bind_look, bind_call.
  destruct (ioutil_ReadFile _ w0).1 as [key | err]; [| done].
  destruct (ssh_ParsePrivateKey key) as [signer | err]; [| done].
  match goal with |- bind _ ?f _ = _ -> _ => set (k := f) end.
  assert (Hk : ∀ store w1, (useMemfs = false -> store = osfs_New baseDir) ->
    k store w1 = (Ret (Ok g), w') ->
    (pulled g = false ∧ repoUrl g = url ∧ ctx g = None ∧ User (auth g) = "git"
     ∧ (useMemfs = false -> fs g = osfs_New baseDir))
    ∧ ∃ w1 w2 w3 w4 dotStore,
        (fs_Stat (fs g) GitDirName w1 = (Err ErrNotExist, w2)
         ∧ git_CloneContext c dotStore (fs g) (mkCloneOptions url (auth g)) w3
           = (Ok (repo g), w4))
        ∨ (∃ fi, fs_Stat (fs g) GitDirName w1 = (Ok fi, w2)
                 ∧ IsDir fi = true ∧ flag = false
                 ∧ git_Open dotStore (fs g) w3 = (Ok (repo g), w4))).
  { intros store w1 Hstore. subst k. simpl. unfold bind at 1.
    destruct (buildDotStore store flag w1) as [[[ex [st | err]] |] w3] eqn:Hb; try done.
    apply buildDotStore_storage in Hb as [w2 Hb].
    destruct Hb as [[Hstat ->] | (fi & Hstat & Hdir & -> & ->)].
    - rewrite bind_call.
      destruct (git_CloneContext c st store _ w3) as [[rp | err] w4] eqn:Hclone;
        simpl; [| done].
      rewrite bind_call.
      destruct (repo_Worktree rp w4) as [[wtree | err] w5]; simpl; [| done].
      intros [= <- <-]. simpl. split; [done |].
      exists w1, w2, w3, w4, st. left. done.
    - rewrite bind_call.
      destruct (git_Open st store w3) as [[rp | err] w4] eqn:Hopen; simpl; [| done].
      rewrite bind_call.
      destruct (repo_Worktree rp w4) as [[wtree | err] w5]; simpl; [| done].
      intros [= <- <-]. simpl. split; [done |].
      exists w1, w2, w3, w4, st. right. by exists fi. }
  destruct useMemfs; [rewrite bind_call | rewrite bind_ret]; by apply Hk.
Qed.

End BootstrapMore.

(** X14. [NewGit] returns a client only by cloning into a store whose
    metadata path was absent, or by opening one whose metadata path is a
    directory with the guard flag off; it never clones over an existing
    repository. The client it returns has the given URL, the user [git],
    the flag cleared and, for a path-rooted store, the store at the given
    base directory. *)
Theorem NewGit_opens_or_clones `{E : Extern} (c : context_Context) (url : string)
    (useMemfs : bool) (baseDir : string) (errorIfExists : bool) (w0 w' : W) (g : Git) :
  NewGit c url useMemfs baseDir errorIfExists w0 = (Ret (Ok g), w') ->
  (pulled g = false ∧ repoUrl g = url ∧ ctx g = None ∧ User (auth g) = "git"
   ∧ (useMemfs = false -> fs g = osfs_New baseDir))
  ∧ ∃ w1 w2 w3 w4 dotStore,
      (fs_Stat (fs g) GitDirName w1 = (Err ErrNotExist, w2)
       ∧ git_CloneContext c dotStore (fs g) (mkCloneOptions url (auth g)) w3
         = (Ok (repo g), w4))
      ∨ (∃ fi, fs_Stat (fs g) GitDirName w1 = (Ok fi, w2)
               ∧ IsDir fi = true ∧ errorIfExists = false
               ∧ git_Open dotStore (fs g) w3 = (Ok (repo g), w4)).
Proof. apply NewGit_success. Qed.

Lemma NewGit_opens_or_clones_witness :
  pulled Sim.client = false ∧ repoUrl Sim.client = "git@example.org:r.git"
  ∧ ctx Sim.client = None ∧ User (auth Sim.client) = "git"
  ∧ (false = false -> fs Sim.client = @osfs_New Sim.engine "/data").
Proof.
  exact (proj1 (NewGit_opens_or_clones (E := Sim.engine) tt "git@example.org:r.git" false
                  "/data" false Sim.world0 Sim.world0 Sim.client eq_refl)).
Defined.

(** X15. A handle returned by [New] comes from a valid configuration and
    has a client on the handle's own store, with the trimmed URL and the
    flag cleared; so pull and sync on it do not fault. *)
Theorem New_handle `{E : Extern} (c : context_Context) (config config' : Config)
    (g : GitFs) (w w' : W) :
  New c config w = (Ret (config', Ok g), w') ->
  Valid config = (config', None)
  ∧ (∃ git, gf_git g = Some git ∧ gf_fs g = fs git ∧ pulled git = false
            ∧ repoUrl git = strings_TrimSpace (cfg_repoUrl config))
  ∧ (∀ w1, (GitFs_Pull g w1).1 ≠ Panic)
  ∧ (∀ purge w1, (GitFs_Sync g purge w1).1 ≠ Panic).
Proof.
  unfold New. destruct (Valid config) as [cfg [err |]] eqn:Hv; [done |].
  unfold bind.
  destruct (NewGit c _ _ _ _ w) as [[[git | err] |] w1] eqn:Hn; try done.
  intros [= <- <- <-].
  apply NewGit_success in Hn as [(Hp & Hu & _) _].
  split; [done |]. split; [| split].
  - exists git. repeat split; [done |]. rewrite Hu.
    unfold Valid in Hv. simpl in Hv.
    destruct (decide _); [done |]. simpl in Hv.
    destruct (_ && _); [done |]. destruct (_ && _); [done |].
    by injection Hv as <-.
  - intros w2. unfold GitFs_Pull, Git_Pull. simpl. run_M; done.
  - intros purge w2.
    destruct (Sync_runs git (Git_FileSystem git) purge w2) as (? & ? & ? & ? & _ & ->).
    done.
Qed.

Lemma New_handle_witness :
  Valid (UseOsFs (SetUrl NewConfig " git@example.org:r.git ") "/data" true) =
    (UseOsFs (SetUrl NewConfig "git@example.org:r.git") "/data" true, None)
  ∧ (∃ git, gf_git Sim.handle = Some git ∧ gf_fs Sim.handle = fs git ∧ pulled git = false
            ∧ repoUrl git = strings_TrimSpace " git@example.org:r.git ")
  ∧ (∀ w1, (GitFs_Pull Sim.handle w1).1 ≠ Panic)
  ∧ (∀ purge w1, (GitFs_Sync Sim.handle purge w1).1 ≠ Panic).
Proof.
  exact (New_handle (E := Sim.engine) tt
           (UseOsFs (SetUrl NewConfig " git@example.org:r.git ") "/data" true)
           (UseOsFs (SetUrl NewConfig "git@example.org:r.git") "/data" true)
           Sim.handle Sim.world0 Sim.world0 eq_refl).
Defined.

(** ** More of the facade *)

Set Warnings "-clear-no-such-hyp".

(** X16. [Exist] answers true exactly when [Stat] succeeds, and reports an
    error exactly when [Stat] fails with something other than a not-exist
    error, which it wraps; a missing path is a plain false, and true never
    comes with an error. *)
Theorem Exist_classifies `{E : Extern} (g : GitFs) (path : string) (w : W) :
  let r := fs_Stat (gf_fs g) path w in
  ∃ (b : bool) (e : option error),
    GitFs_Exist g path w = (Ret (b, e), r.2)
    ∧ (b = true ↔ ∃ fi, r.1 = Ok fi)
    ∧ (e = None ↔ (∃ fi, r.1 = Ok fi) ∨ r.1 = Err ErrNotExist)
    ∧ (∀ err, r.1 = Err err -> err ≠ ErrNotExist ->
         e = Some (ErrWrap err "error stating path"))
    ∧ (b = true -> e = None).
Proof.
  intros r. subst r. unfold GitFs_Exist. rewrite bind_call.
  destruct (fs_Stat (gf_fs g) path w) as [[fi | err] w1]; simpl.
  - exists true, None. split; [done |]. split_and!; naive_solver.
  - destruct err; simpl; eexists _, _; (split; [reflexivity |]);
      split_and!; naive_solver.
Qed.

(** ** Status and the metadata directory *)

(** X17. The status does not depend on what the metadata directory holds,
    nor on whether it can be read: two worlds with the same raw status
    whose stores agree once the metadata entries are erased give the same
    result. *)
Theorem GetStatus_ignores_metadata `{E : Extern} (g : Git) (w1 w2 : W) :
  wt_Status (wt g) w1 = wt_Status (wt g) w2 ->
  pruneMetadata (fs_tree (fs g) w1) = pruneMetadata (fs_tree (fs g) w2) ->
  (Git_GetStatus g w1).1 = (Git_GetStatus g w2).1.
Proof.
  intros Hs Ht. unfold Git_GetStatus. rewrite !bind_look, Hs.
  destruct (wt_Status (wt g) w2) as [s | err]; [| done].
  rewrite !bind_look.
  rewrite <- (proj1 (pruneMetadata_walk (statusCallback s) (fs_tree (fs g) w1) "/" ∅)).
  rewrite <- (proj1 (pruneMetadata_walk (statusCallback s) (fs_tree (fs g) w2) "/" ∅)).
  rewrite Ht. by destruct (traverseDir _ _ _ _) as [files [err |]].
Qed.

Lemma GetStatus_ignores_metadata_witness :
  (Git_GetStatus Sim.client Sim.world0).1 = (Git_GetStatus Sim.client worldAfterCommit).1.
Proof.
  apply (GetStatus_ignores_metadata (E := Sim.engine) Sim.client Sim.world0 worldAfterCommit);
    reflexivity.
Defined.

(** X18. [GetStatus] fails exactly when the raw status cannot be read, and
    then with that error wrapped, or the walk meets a directory it cannot
    read, and then with the read error as it is; no partial map is
    returned. *)
Theorem GetStatus_fails_iff `{E : Extern} (g : Git) (w : W) (e : error) :
  (Git_GetStatus g w).1 = Ret (Err e) ↔
  (∃ e0, wt_Status (wt g) w = Err e0 ∧ e = ErrWrap e0 "error getting status")
  ∨ (∃ s, wt_Status (wt g) w = Ok s ∧ walkError (fs_tree (fs g) w) "/" = Some e).
Proof.
  rewrite Git_GetStatus_eq. simpl.
  destruct (wt_Status (wt g) w) as [s | e0].
  - destruct (walkError _ _) as [e1 |]; split.
    + intros [= ->]. right. by exists s.
    + intros [(? & ? & _) | (? & _ & [= ->])]; done.
    + done.
    + intros [(? & ? & _) | (? & _ & ?)]; done.
  - split.
    + intros [= <-]. left. by exists e0.
    + intros [(? & [= <-] & ->) | (? & ? & _)]; done.
Qed.

(** ** Failures of [New] *)

(** X19. When [New] fails, either the configuration is invalid, and then
    the error is [Valid]'s own and nothing has been read or created, or
    the client could not be made, and then the error is [NewGit]'s wrapped
    as a failure to create the git client. *)
Theorem New_failure `{E : Extern} (c : context_Context) (config config' : Config)
    (e : error) (w w' : W) :
  New c config w = (Ret (config', Err e), w') ->
  (Valid config = (config', Some e) ∧ w' = w)
  ∨ (∃ e0, Valid config = (config', None)
           ∧ e = ErrWrap e0 "error creating git client"
           ∧ NewGit c (cfg_repoUrl config') (cfg_useMemFs config')
               (cfg_osFsBaseDir config') (negb (cfg_openExisting config')) w
             = (Ret (Err e0), w')).
Proof.
  unfold New. destruct (Valid config) as [cfg [err |]] eqn:Hv.
  - rewrite ret_eq. intros [= <- <- <-]. by left.
  - unfold bind.
    destruct (NewGit c _ _ _ _ w) as [[[git | e0] |] w1] eqn:Hn; try done.
    rewrite ret_eq. intros [= <- <- <-]. right. by exists e0.
Qed.

Lemma New_failure_witness :
  (Valid (UseMemFs (SetUrl NewConfig "  ")) =
     (UseMemFs (SetUrl NewConfig ""), Some (ErrNew "empty repo url"))
   ∧ Sim.world0 = Sim.world0)
  ∨ (∃ e0, Valid (UseMemFs (SetUrl NewConfig "  ")) = (UseMemFs (SetUrl NewConfig ""), None)
           ∧ ErrNew "empty repo url" = ErrWrap e0 "error creating git client"
           ∧ NewGit (E := Sim.engine) tt "" true "" true Sim.world0
             = (Ret (Err e0), Sim.world0)).
Proof.
  exact (New_failure (E := Sim.engine) tt (UseMemFs (SetUrl NewConfig "  "))
           (UseMemFs (SetUrl NewConfig "")) (ErrNew "empty repo url")
           Sim.world0 Sim.world0 eq_refl).
Defined.
